(** * ffmpeg-rest: caption timing, filter graphs, merge offsets, overlay sizing

    A shallow embedding of the composition-planning code of the
    repository together with the properties the specification states about
    it: the subtitle generator [src/utils/ass-generator.ts], the watermark
    anchors [src/utils/watermark-positions.ts], and the jobs
    [processVideoCompose], [processVideoOverlay] and [processVideoMerge] of
    [src/queue/video/processor.ts] (the last two from the revision of that
    file that has the overlay and merge endpoints).

    Conventions of the embedding:
    - a JavaScript [number] is an exact rational ([Q]), so the rounding
      error of double arithmetic is not part of the model; integers that
      the code renders with template literals are [Z];
    - a JavaScript string is a [string];
    - [forEach] over an array is a left-to-right traversal that threads the
      mutable locals of the enclosing function as an explicit state;
    - [async] code that can throw is a state-and-exception computation over
      a small model of the world (existing directories, uploaded objects). *)

From Stdlib Require Import ZArith QArith Qround Qminmax Qabs.
From Stdlib Require Import List String Ascii Bool Lia Sorting.Sorted.
From Stdlib Require Import DecimalString DecimalPos DecimalZ Lqa.
From Stdlib Require HexadecimalString.
Import ListNotations.

Local Open Scope Q_scope.

(* ------------------------------------------------------------------ *)
(** ** JavaScript numbers and strings *)

Module JS.

(** [Math.floor]. *)
Definition floor (x : Q) : Z := Qfloor x.

(** [Math.round]: the nearest integer, halves rounded towards +infinity. *)
Definition round (x : Q) : Z := Qfloor (x + (1 # 2)).

(** Truncation towards zero, the integer part used by the [%] operator. *)
Definition trunc (x : Q) : Z :=
  if Qle_bool 0 x then Qfloor x else Qceiling x.

(** [a % b] on numbers: the remainder takes the sign of the dividend. *)
Definition rem (a b : Q) : Q := a - b * inject_Z (trunc (a / b)).

(** [Math.min]. *)
Definition min (a b : Q) : Q := if Qle_bool a b then a else b.

(** [x > y] on numbers. *)
Definition gt (x y : Q) : bool := negb (Qle_bool x y).

(** [x || d] for an optional number: [undefined] and [0] are falsy. *)
Definition orNum (x : option Q) (d : Q) : Q :=
  match x with
  | Some v => if Qeq_bool v 0 then d else v
  | None => d
  end.

(** [x || d] for an optional integer. *)
Definition orInt (x : option Z) (d : Z) : Z :=
  match x with
  | Some v => if Z.eqb v 0%Z then d else v
  | None => d
  end.

(** [x || d] for an optional string: [undefined] and the empty string are
    falsy. *)
Definition orStr (x : option string) (d : string) : string :=
  match x with
  | Some EmptyString => d
  | Some v => v
  | None => d
  end.

(** Truthiness of an optional string, [!!x]. *)
Definition truthy (x : option string) : bool :=
  match x with
  | Some EmptyString => false
  | Some _ => true
  | None => false
  end.

(** Decimal rendering of an integer inside a template literal. *)
Definition showInt (z : Z) : string := NilZero.string_of_int (Z.to_int z).

(** The digits of [num / den], a fraction in [[0, 1)], at most [fuel] of
    them and none after the expansion has ended. *)
Fixpoint fracDigits (fuel : nat) (num den : Z) : string :=
  match fuel with
  | O => EmptyString
  | S fuel' =>
      if Z.eqb num 0 then EmptyString
      else (showInt (num * 10 / den) ++ fracDigits fuel' ((num * 10) mod den) den)%string
  end.

(** Rendering of a number inside a template literal: the decimal
    expansion, exact when it ends within 17 fraction digits. *)
Definition showNumber (x : Q) : string :=
  let n := Z.abs (Qnum x) in
  let d := Zpos (Qden x) in
  let sign := if Z.ltb (Qnum x) 0 then "-"%string else EmptyString in
  let frac := (n mod d)%Z in
  (sign ++ showInt (n / d)
   ++ if Z.eqb frac 0 then EmptyString else "." ++ fracDigits 17 frac d)%string.

(** [s.padStart(n, '0')]. *)
Definition padStart0 (n : nat) (s : string) : string :=
  let fix zeros (k : nat) : string :=
    match k with
    | O => EmptyString
    | S k' => String "0"%char (zeros k')
    end in
  (zeros (n - String.length s)%nat ++ s)%string.

(** [x.toFixed(3)]: the nearest multiple of 0.001, the larger one of two
    equally near, written with three fraction digits. *)
Definition toFixed3 (x : Q) : string :=
  let n := round (Qabs x * 1000) in
  let sign := if Qle_bool 0 x then EmptyString else "-"%string in
  (sign ++ showInt (n / 1000) ++ "." ++ padStart0 3 (showInt (n mod 1000)))%string.

(** Reading a decimal rendering back. *)
Definition readInt (s : string) : option Z :=
  option_map Z.of_int (NilZero.int_of_string s).

(** The two-digit rendering of [k] has two characters and reads back as
    [k]. *)
Definition twoDigitCheck (k : nat) : bool :=
  let s := padStart0 2 (showInt (Z.of_nat k)) in
  Nat.eqb (String.length s) 2
  && match readInt s with
     | Some v => Z.eqb v (Z.of_nat k)
     | None => false
     end.

(** [s.replace(c, '')] for a one-character pattern: only the first
    occurrence is removed. *)
Fixpoint removeFirst (c : ascii) (s : string) : string :=
  match s with
  | EmptyString => EmptyString
  | String a r => if Ascii.eqb a c then r else String a (removeFirst c r)
  end.

(** [s.substring(i, j)] for [i <= j]. *)
Definition substring (i j : nat) (s : string) : string :=
  String.substring i (j - i)%nat s.

Definition upperChar (a : ascii) : ascii :=
  let n := nat_of_ascii a in
  if (Nat.leb 97 n && Nat.leb n 122)%bool then ascii_of_nat (n - 32)%nat else a.

(** [s.toUpperCase()] on ASCII text. *)
Fixpoint toUpperCase (s : string) : string :=
  match s with
  | EmptyString => EmptyString
  | String a r => String (upperChar a) (toUpperCase r)
  end.

(** [parts.join(sep)]. *)
Fixpoint join (sep : string) (parts : list string) : string :=
  match parts with
  | [] => EmptyString
  | [p] => p
  | p :: rest => (p ++ sep ++ join sep rest)%string
  end.

(** [arr.forEach((x, index) => ...)] with the callback's effect on the
    enclosing locals made explicit as a state [S]. *)
Fixpoint forEachFrom {A S : Type} (f : S -> A -> nat -> S)
         (l : list A) (index : nat) (st : S) : S :=
  match l with
  | [] => st
  | x :: rest => forEachFrom f rest (Datatypes.S index) (f st x index)
  end.

Definition forEach {A S : Type} (f : S -> A -> nat -> S) (l : list A) (st : S) : S :=
  forEachFrom f l 0%nat st.

End JS.

Definition newline : string := String (ascii_of_nat 10) EmptyString.

(* ------------------------------------------------------------------ *)
(** ** The subtitle generator, [src/utils/ass-generator.ts] *)

Module Ass.

(** [interface WordTimestamp]; [end_] is the source's field [end]. *)
Record WordTimestamp : Type := mkWord {
  word : string;
  start : Q;
  end_ : Q
}.

(** The element type of the array [segmentWords] returns. *)
Record Segment : Type := mkSegment {
  startTime : Q;
  endTime : Q;
  words : list WordTimestamp
}.

(** The locals [segments], [currentSegment] and [segmentStartTime] of
    [segmentWords]. *)
Record SegState : Type := mkSegState {
  segments : list Segment;
  currentSegment : list WordTimestamp;
  segmentStartTime : Q
}.

(** [timestamps[index + 1].start - timestamp.end > 0.3]. *)
Definition gapAfter (timestamp next : WordTimestamp) : bool :=
  JS.gt (start next - end_ timestamp) (3 # 10).

Definition isLastWord (timestamps : list WordTimestamp) (index : nat) : bool :=
  Nat.eqb index (List.length timestamps - 1)%nat.

Definition segmentFull (cur : list WordTimestamp) (maxWordsPerSegment : Z) : bool :=
  Z.geb (Z.of_nat (List.length cur)) maxWordsPerSegment.

Definition nextWordHasGap (timestamps : list WordTimestamp)
           (timestamp : WordTimestamp) (index : nat) : bool :=
  negb (isLastWord timestamps index) &&
  match nth_error timestamps (S index) with
  | Some next => gapAfter timestamp next
  | None => false
  end.

(** The three closing conditions of the callback, evaluated after the
    current word has been pushed. *)
Definition shouldClose (timestamps : list WordTimestamp) (maxWordsPerSegment : Z)
           (cur : list WordTimestamp) (timestamp : WordTimestamp) (index : nat) : bool :=
  isLastWord timestamps index
  || segmentFull cur maxWordsPerSegment
  || nextWordHasGap timestamps timestamp index.

(** The body of the [forEach] callback of [segmentWords]. *)
Definition segStep (timestamps : list WordTimestamp) (maxWordsPerSegment : Z)
           (st : SegState) (timestamp : WordTimestamp) (index : nat) : SegState :=
  let segmentStartTime' :=
    if Nat.eqb (List.length (currentSegment st)) 0%nat
    then start timestamp else segmentStartTime st in
  let cur := currentSegment st ++ [mkWord (word timestamp) (start timestamp) (end_ timestamp)] in
  if shouldClose timestamps maxWordsPerSegment cur timestamp index then
    let lastWord := List.last cur timestamp in
    {| segments := segments st ++ [mkSegment segmentStartTime' (end_ lastWord) cur];
       currentSegment := [];
       segmentStartTime := segmentStartTime' |}
  else
    {| segments := segments st;
       currentSegment := cur;
       segmentStartTime := segmentStartTime' |}.

Definition segInit : SegState :=
  {| segments := []; currentSegment := []; segmentStartTime := 0 |}.

Definition segmentWords (timestamps : list WordTimestamp) (maxWordsPerSegment : Z)
  : list Segment :=
  segments (JS.forEach (segStep timestamps maxWordsPerSegment) timestamps segInit).

(** [colorToASS]: [#RRGGBB] to [&H00BBGGRR]. *)
Definition colorToASS (hexColor : string) : string :=
  let hex := JS.removeFirst "#"%char hexColor in
  let r := JS.substring 0%nat 2%nat hex in
  let g := JS.substring 2%nat 4%nat hex in
  let b := JS.substring 4%nat 6%nat hex in
  JS.toUpperCase ("&H00" ++ b ++ g ++ r)%string.

(** The four numeric fields [formatASSTime] computes. *)
Definition hoursOf (seconds : Q) : Z := JS.floor (seconds / 3600).
Definition minsOf (seconds : Q) : Z := JS.floor (JS.rem seconds 3600 / 60).
Definition secsOf (seconds : Q) : Z := JS.floor (JS.rem seconds 60).
Definition centisecondsOf (seconds : Q) : Z := JS.floor (JS.rem seconds 1 * 100).

(** [formatASSTime]: [H:MM:SS.CC]. *)
Definition formatASSTime (seconds : Q) : string :=
  (JS.showInt (hoursOf seconds) ++ ":"
   ++ JS.padStart0 2%nat (JS.showInt (minsOf seconds)) ++ ":"
   ++ JS.padStart0 2%nat (JS.showInt (secsOf seconds)) ++ "."
   ++ JS.padStart0 2%nat (JS.showInt (centisecondsOf seconds)))%string.



(** [interface ASSGeneratorOptions]; the resolution string [WxH] is held
    as the two numbers [resolution.split('x').map(Number)] yields. *)
Record ASSGeneratorOptions : Type := mkOptions {
  resolution : Z * Z;
  fontFamily : option string;
  fontSize : option Z;
  primaryColor : option string;
  highlightColor : option string;
  outlineColor : option string;
  marginBottom : option Z;
  wordsPerSegment : option Z
}.

(** The constants [highlightStartMs] and [highlightEndMs] of the [map]
    callback in [generateASS]. *)
Definition highlightStartMs (wordInfo : WordTimestamp) : Z :=
  JS.round (start wordInfo * 1000).
Definition highlightEndMs (wordInfo : WordTimestamp) : Z :=
  JS.round (end_ wordInfo * 1000).

(** The template literal [animationTag]. *)
Definition animationTag (primary highlight : string) (wordInfo : WordTimestamp) : string :=
  let hs := JS.showInt (highlightStartMs wordInfo) in
  let he := JS.showInt (highlightEndMs wordInfo) in
  ("{\1c" ++ primary ++ "&\t(" ++ hs ++ "," ++ hs ++ ",\1c" ++ highlight ++ "&)\t("
   ++ he ++ "," ++ he ++ ",\1c" ++ primary ++ "&)}")%string.

(** The text of one dialogue: every word with its tag, joined by spaces. *)
Definition textWithAnimations (primary highlight : string) (segment : Segment) : string :=
  JS.join " " (map (fun wordInfo => (animationTag primary highlight wordInfo ++ word wordInfo)%string)
                   (words segment)).

Definition dialogueLine (primary highlight : string) (segment : Segment) : string :=
  ("Dialogue: 0," ++ formatASSTime (startTime segment) ++ ","
   ++ formatASSTime (endTime segment) ++ ",Default,,0,0,0,,"
   ++ textWithAnimations primary highlight segment ++ newline)%string.

Definition header (options : ASSGeneratorOptions) : string :=
  let font := JS.orStr (fontFamily options) "DejaVu Sans" in
  let size := JS.orInt (fontSize options) 80%Z in
  let primary := colorToASS (JS.orStr (primaryColor options) "#FFFFFF") in
  let highlight := colorToASS (JS.orStr (highlightColor options) "#FFD700") in
  let outline := colorToASS (JS.orStr (outlineColor options) "#000000") in
  let margin := JS.orInt (marginBottom options) 300%Z in
  JS.join newline
    [ "[Script Info]";
      "Title: EasyBrainrot Captions";
      "ScriptType: v4.00+";
      "WrapStyle: 0";
      "PlayResX: " ++ JS.showInt (fst (resolution options));
      "PlayResY: " ++ JS.showInt (snd (resolution options));
      "ScaledBorderAndShadow: yes";
      EmptyString;
      "[V4+ Styles]";
      "Format: Name, Fontname, Fontsize, PrimaryColour, SecondaryColour, OutlineColour, BackColour, Bold, Italic, Underline, StrikeOut, ScaleX, ScaleY, Spacing, Angle, BorderStyle, Outline, Shadow, Alignment, MarginL, MarginR, MarginV, Encoding";
      "Style: Default," ++ font ++ "," ++ JS.showInt size ++ "," ++ primary ++ ","
        ++ highlight ++ "," ++ outline ++ ",&H80000000,-1,0,0,0,100,100,0,0,1,4,2,2,10,10,"
        ++ JS.showInt margin ++ ",1";
      EmptyString;
      "[Events]";
      "Format: Layer, Start, End, Style, Name, MarginL, MarginR, MarginV, Effect, Text";
      EmptyString ]%string.

(** The segments [generateASS] lays out: [segmentWords] at
    [options.wordsPerSegment || 3]. *)
Definition generatedSegments (timestamps : list WordTimestamp)
           (options : ASSGeneratorOptions) : list Segment :=
  segmentWords timestamps (JS.orInt (wordsPerSegment options) 3%Z).

(** [generateASS]. *)
Definition generateASS (timestamps : list WordTimestamp)
           (options : ASSGeneratorOptions) : string :=
  let primary := colorToASS (JS.orStr (primaryColor options) "#FFFFFF") in
  let highlight := colorToASS (JS.orStr (highlightColor options) "#FFD700") in
  fold_left (fun ass segment => (ass ++ dialogueLine primary highlight segment)%string)
            (generatedSegments timestamps options)
            (header options).

(** *** Vocabulary for the statements about segmentation *)

(** The traversal of [segmentWords] read as a recursion on the words still
    to come: [cur] and [segStart] are the open segment and its start time,
    and the look-ahead [timestamps[index + 1]] is the head of the rest. *)
Fixpoint segGo (maxWordsPerSegment : Z) (cur : list WordTimestamp) (segStart : Q)
         (l : list WordTimestamp) : list Segment :=
  match l with
  | [] => []
  | w :: rest =>
      let segStart' := if Nat.eqb (List.length cur) 0%nat then start w else segStart in
      let cur' := cur ++ [w] in
      let close :=
        match rest with
        | [] => true
        | next :: _ => segmentFull cur' maxWordsPerSegment || gapAfter w next
        end in
      if close
      then mkSegment segStart' (end_ (List.last cur' w)) cur'
             :: segGo maxWordsPerSegment [] segStart' rest
      else segGo maxWordsPerSegment cur' segStart' rest
  end.




(** The data-model invariants of a segment: it has a first word, starts
    when that word starts and ends when its last word ends. *)
Definition segmentShape (sg : Segment) : Prop :=
  exists w ws, words sg = w :: ws
               /\ startTime sg = start w
               /\ endTime sg = end_ (List.last (w :: ws) w).

(** Two closed intervals [[startTime, endTime]] share an instant. *)
Definition overlap (a b : Segment) : Prop :=
  startTime a <= endTime b /\ startTime b <= endTime a.

(** Pairwise time-disjointness of the produced segments. *)
Definition timeDisjoint (segs : list Segment) : Prop :=
  ForallOrdPairs (fun a b => ~ overlap a b) segs.

(** A word ends no earlier than it starts, and the following word starts no
    earlier than it ends. *)
Definition wordBefore (a b : WordTimestamp) : Prop :=
  start a <= end_ a /\ end_ a <= start b /\ start b <= end_ b.

(** Words with overlapping display windows: the fourth starts before the
    third has ended. *)
Definition overlappingWords : list WordTimestamp :=
  [ mkWord "a" 0 1; mkWord "b" 1 2; mkWord "c" 2 3; mkWord "d" (5 # 2) (7 # 2) ].

(** The example of the repository's caption guide: a phrase that starts
    at 4.362 s. *)
Definition guidePhrase : list WordTimestamp :=
  [ mkWord "Full" (4362 # 1000) (4562 # 1000);
    mkWord "cap" (4602 # 1000) (4922 # 1000) ].

(** Scenario 1 of the specification: a phrase that starts at 0 s. *)
Definition openingPhrase : list WordTimestamp :=
  [ mkWord "This" 0 (2 # 10); mkWord "is" (2 # 10) (4 # 10);
    mkWord "brainrot" (4 # 10) 1 ].

End Ass.

(* ------------------------------------------------------------------ *)
(** ** Watermark anchors, [src/utils/watermark-positions.ts] *)

Module Watermark.

Inductive WatermarkPosition : Type :=
| TopLeft | TopCenter | TopRight
| MiddleLeft | MiddleCenter | MiddleRight
| BottomLeft | BottomCenter | BottomRight.

(** [getWatermarkPosition(position = 'bottom-center', padding = 400)]. *)
Definition getWatermarkPosition (position : option WatermarkPosition)
           (padding : option Z) : string :=
  let p := JS.showInt (match padding with Some v => v | None => 400%Z end) in
  match match position with Some v => v | None => BottomCenter end with
  | TopLeft => p ++ ":" ++ p
  | TopCenter => "(main_w-overlay_w)/2:" ++ p
  | TopRight => "main_w-overlay_w-" ++ p ++ ":" ++ p
  | MiddleLeft => p ++ ":(main_h-overlay_h)/2"
  | MiddleCenter => "(main_w-overlay_w)/2:(main_h-overlay_h)/2"
  | MiddleRight => "main_w-overlay_w-" ++ p ++ ":(main_h-overlay_h)/2"
  | BottomLeft => p ++ ":main_h-overlay_h-" ++ p
  | BottomCenter => "(main_w-overlay_w)/2:main_h-overlay_h-" ++ p
  | BottomRight => "main_w-overlay_w-" ++ p ++ ":main_h-overlay_h-" ++ p
  end%string.

End Watermark.

(* ------------------------------------------------------------------ *)
(** ** The filter graph of [processVideoCompose],
       [src/queue/video/processor.ts] *)

Module Compose.
Import Watermark.

(** The fields of [VideoComposeJobData] that the filter graph depends on.
    A field with a destructuring default is optional; [resolution] is held
    as the numbers [resolution.split('x').map(Number)] yields. *)
Record VideoComposeJobData : Type := mkComposeData {
  backgroundUrl : string;
  backgroundId : option string;
  audioUrl : string;
  musicUrl : option string;
  musicVolume : option Q;
  wordTimestamps : list Ass.WordTimestamp;
  duration : Q;
  watermarkText : option string;
  watermarkUrl : option string;
  watermarkScale : option Q;
  watermarkOpacity : option Q;
  resolution : Z * Z;
  watermarkPosition : option WatermarkPosition;
  captionOptions : Ass.ASSGeneratorOptions
}.

(** A destructuring default, [{ x = d }]: only [undefined] is replaced. *)
Definition withDefault {A : Type} (x : option A) (d : A) : A :=
  match x with Some v => v | None => d end.

(** What a piece appended to [filterComplex] does. *)
Inductive StageKind : Type :=
| AudioGain
| AudioMix
| BackgroundFit (scaleW scaleH cropW cropH : Z)
| CaptionBurn
| TextWatermark
| WatermarkPrepare (scaledWidth : Z)
| WatermarkOverlay.

(** One [filterComplex += ...]: the stage and the text appended. *)
Record Stage : Type := mkStage {
  kind : StageKind;
  text : string
}.


(** [path.replace(/'/g, "'\\''")]. *)
Fixpoint escapeQuotes (s : string) : string :=
  match s with
  | EmptyString => EmptyString
  | String a r =>
      if Ascii.eqb a "'"%char
      then ("'\''" ++ escapeQuotes r)%string
      else String a (escapeQuotes r)
  end.

Section Builder.

(** The text of the [drawtext] filter, assembled from the font, colour and
    position options of the job. *)
Variable drawtextFilter : string.

(** [path.join(jobDir, 'captions.ass')]. *)
Variable captionsPath : string.

Variable data : VideoComposeJobData.

Definition musicInputIndex : Z := 2.

(** [watermarkInputIndex = currentInputIndex++], after the music input. *)
Definition watermarkInputIndex : Z :=
  if JS.truthy (musicUrl data) then 3 else 2.

Definition useTextWatermark : bool := JS.truthy (watermarkText data).

Definition useImageWatermark : bool :=
  negb useTextWatermark && JS.truthy (watermarkUrl data).

Definition audioStages : list Stage :=
  if JS.truthy (musicUrl data) then
    [ mkStage AudioGain "[1:a]volume=1.0[tts];";
      mkStage AudioGain
        ("[" ++ JS.showInt musicInputIndex ++ ":a]volume="
         ++ JS.showNumber (withDefault (musicVolume data) (4 # 10)) ++ "[music];");
      mkStage AudioMix "[tts][music]amix=inputs=2:duration=first[audio];" ]%string
  else [].

Definition backgroundStage : Stage :=
  let targetWidth := fst (resolution data) in
  let targetHeight := snd (resolution data) in
  mkStage (BackgroundFit targetWidth targetHeight targetWidth targetHeight)
    ("[0:v]scale=" ++ JS.showInt targetWidth ++ ":" ++ JS.showInt targetHeight
     ++ ":force_original_aspect_ratio=increase,crop="
     ++ JS.showInt targetWidth ++ ":" ++ JS.showInt targetHeight
     ++ ",trim=duration=" ++ JS.showNumber (duration data) ++ "[bg];")%string.

Definition assFilter (input output : string) : string :=
  ("[" ++ input ++ "]ass='" ++ escapeQuotes captionsPath ++ "'[" ++ output ++ "]")%string.

(** The branch on the watermark variant. *)
Definition watermarkStages : list Stage :=
  if useTextWatermark then
    if Nat.ltb 0 (List.length (wordTimestamps data)) then
      [ mkStage CaptionBurn (assFilter "bg" "captioned" ++ ";");
        mkStage TextWatermark ("[captioned]" ++ drawtextFilter ++ "[final]") ]%string
    else
      [ mkStage TextWatermark ("[bg]" ++ drawtextFilter ++ "[final]") ]%string
  else if useImageWatermark then
    let videoWidth := fst (resolution data) in
    let scaledWidth :=
      JS.round (inject_Z videoWidth * withDefault (watermarkScale data) (35 # 100)) in
    [ mkStage (WatermarkPrepare scaledWidth)
        ("[" ++ JS.showInt watermarkInputIndex ++ ":v]scale=" ++ JS.showInt scaledWidth
         ++ ":-1,format=yuva420p,colorchannelmixer=aa="
         ++ JS.showNumber (withDefault (watermarkOpacity data) (85 # 100)) ++ "[logo];");
      mkStage WatermarkOverlay
        ("[bg][logo]overlay="
         ++ getWatermarkPosition (watermarkPosition data) None ++ "[watermarked];");
      mkStage CaptionBurn (assFilter "watermarked" "final") ]%string
  else
    [ mkStage CaptionBurn (assFilter "bg" "final") ].

(** Every piece appended to [filterComplex], in the order of the
    appends. *)
Definition filterStages : list Stage :=
  audioStages ++ [backgroundStage] ++ watermarkStages.

(** The string [filterComplex] passed to the engine. *)
Definition filterComplex : string :=
  fold_left (fun acc st => (acc ++ text st)%string) filterStages EmptyString.


End Builder.







(** A job that asks for captions and for an image watermark. *)
Definition imageWatermarkJob : VideoComposeJobData :=
  {| backgroundUrl := "https://cdn.example/bg.mp4";
     backgroundId := None;
     audioUrl := "https://cdn.example/voice.mp3";
     musicUrl := None;
     musicVolume := None;
     wordTimestamps := [ Ass.mkWord "Full" 0 (2 # 10) ];
     duration := 5;
     watermarkText := None;
     watermarkUrl := Some "https://cdn.example/logo.png"%string;
     watermarkScale := None;
     watermarkOpacity := None;
     resolution := (1080%Z, 1920%Z);
     watermarkPosition := None;
     captionOptions := Ass.mkOptions (1080%Z, 1920%Z) None None None None None None None |}.

End Compose.

(* ------------------------------------------------------------------ *)
(** ** Crossfade offsets of [processVideoMerge] *)

Module Merge.

(** [trim?: { start?, end? }] of one clip of a merge request. *)
Record Trim : Type := mkTrim {
  trimStart : option Q;
  trimEnd : option Q
}.

Record VideoInput : Type := mkVideo {
  url : string;
  trim : option Trim
}.

(** [trim?.start] and [trim?.end]. *)
Definition startOf (t : option Trim) : option Q :=
  match t with Some tr => trimStart tr | None => None end.
Definition endOf (t : option Trim) : option Q :=
  match t with Some tr => trimEnd tr | None => None end.

(** The body of the probing loop: [probed] is [parseFloat] of the probe
    output, [None] when it is not a number. *)
Definition effectiveDuration (video : VideoInput) (probed : option Q) : Q :=
  let fullDuration := JS.orNum probed 0 in
  let start := JS.orNum (startOf (trim video)) 0 in
  let end_ := JS.orNum (endOf (trim video)) fullDuration in
  JS.min end_ fullDuration - start.

(** The array [durations] after the probing loop. *)
Definition probeDurations (videos : list VideoInput) (probes : list (option Q)) : list Q :=
  map (fun vp => effectiveDuration (fst vp) (snd vp)) (combine videos probes).

(** One [xfade] filter pushed to [filterParts]: the offset it carries and
    its text. *)
Record XfadeFilter : Type := mkXfadeFilter {
  offset : Q;
  text : string
}.

(** The locals of the loop that chains the [xfade] filters. *)
Record XfadeState : Type := mkXfade {
  cumulativeOffset : Q;
  lastVideoLabel : string;
  filterParts : list XfadeFilter
}.

(** One turn of [for (let i = 1; i < inputPaths.length; i++)]; the array
    [durations] has one entry per input path. *)
Definition xfadeStep (durations : list Q) (transitionDuration : Q)
           (st : XfadeState) (i : nat) : XfadeState :=
  let cumulativeOffset' :=
    cumulativeOffset st + (nth (i - 1) durations 0 - transitionDuration) in
  let index := JS.showInt (Z.of_nat i) in
  let outputLabel :=
    if Nat.eqb i (List.length durations - 1) then "vout"%string
    else ("xv" ++ index)%string in
  {| cumulativeOffset := cumulativeOffset';
     lastVideoLabel := outputLabel;
     filterParts :=
       filterParts st
       ++ [ {| offset := cumulativeOffset';
               text := ("[" ++ lastVideoLabel st ++ "][v" ++ index
                        ++ "]xfade=transition=fade:duration="
                        ++ JS.showNumber transitionDuration
                        ++ ":offset=" ++ JS.toFixed3 cumulativeOffset'
                        ++ "[" ++ outputLabel ++ "];")%string |} ] |}.

Definition xfadeInit : XfadeState :=
  {| cumulativeOffset := 0; lastVideoLabel := "v0"; filterParts := [] |}.

Definition xfadeLoop (durations : list Q) (transitionDuration : Q) : XfadeState :=
  fold_left (xfadeStep durations transitionDuration)
            (seq 1 (List.length durations - 1))
            xfadeInit.

(** The offsets of the [xfade] filters, the one of clip [i + 1] at
    position [i - 1]. *)
Definition xfadeOffsets (durations : list Q) (transitionDuration : Q) : list Q :=
  map offset (filterParts (xfadeLoop durations transitionDuration)).

(** The running totals of (duration - transition duration), started at
    [acc]. *)
Fixpoint runningOffsets (transitionDuration : Q) (acc : Q) (durations : list Q) : list Q :=
  match durations with
  | [] => []
  | d :: rest =>
      (acc + (d - transitionDuration))
        :: runningOffsets transitionDuration (acc + (d - transitionDuration)) rest
  end.




End Merge.

(* ------------------------------------------------------------------ *)
(** ** Overlay sizing of [processVideoOverlay] *)

Module Overlay.

(** [targetWidth] and [targetHeight] from the two probes and the scale
    fraction. *)
Definition targetWidth (videoWidth : Z) (overlayScale : Q) : Z :=
  JS.round (inject_Z videoWidth * overlayScale).

Definition targetHeight (videoWidth ovlWidth ovlHeight : Z) (overlayScale : Q) : Z :=
  JS.round (inject_Z (targetWidth videoWidth overlayScale) * inject_Z ovlHeight
            / inject_Z ovlWidth).

(** The template literal [filterComplex]; [position] is the expression
    [getOverlayPosition] returns, and [overlayScale] defaults to 0.22. *)
Definition filterComplex (videoWidth ovlWidth ovlHeight : Z) (overlayScale : option Q)
           (position : string) : string :=
  let scale := match overlayScale with Some v => v | None => 22 # 100 end in
  ("[1:v]scale=" ++ JS.showInt (targetWidth videoWidth scale) ++ ":"
   ++ JS.showInt (targetHeight videoWidth ovlWidth ovlHeight scale)
   ++ "[ovl];[0:v][ovl]overlay=" ++ position)%string.


End Overlay.

(* ------------------------------------------------------------------ *)
(** ** The job around the engine, [processVideoCompose] *)

Module Job.

(** [JobResult], the fields a composition job sets. *)
Record JobResult : Type := mkResult {
  success : bool;
  outputPath : option string;
  outputUrl : option string;
  error : option string
}.

(** The part of the world a job changes: the directories that exist and
    the keys written to object storage. *)
Record World : Type := mkWorld {
  dirs : list string;
  uploaded : list string
}.

(** The collaborators of a job.  An operation that can throw is given by
    the message it throws, if any; [uploadToS3] and
    [getCachedBackgroundVideo] return a value or throw. *)
Record Env : Type := mkEnv {
  TEMP_DIR : string;
  storageModeS3 : bool;
  mkdirThrows : option string;
  writeFileThrows : option string;
  getCachedBackgroundVideo : string -> string -> string + string;
  downloadFileThrows : string -> option string;
  ffmpegThrows : list string -> option string;
  uploadToS3 : string -> string -> string + string;
  rmThrows : option string
}.

(** A computation that reads and changes the world and either returns a
    value ([inl]) or throws a message ([inr]). *)
Definition M (A : Type) : Type := World -> (A + string) * World.

Definition ret {A : Type} (a : A) : M A := fun w => (inl a, w).

Definition throw {A : Type} (message : string) : M A := fun w => (inr message, w).

Definition bind {A B : Type} (m : M A) (k : A -> M B) : M B :=
  fun w =>
    match m w with
    | (inl a, w') => k a w'
    | (inr message, w') => (inr message, w')
    end.

(** [try { body } catch (error) { handler(error.message) }]. *)
Definition tryCatch {A : Type} (body : M A) (handler : string -> M A) : M A :=
  fun w =>
    match body w with
    | (inl a, w') => (inl a, w')
    | (inr message, w') => handler message w'
    end.

(** [promise.catch(() => {})]. *)
Definition ignoreErrors (m : M unit) : M unit :=
  tryCatch m (fun _ => ret tt).

Notation "x <- m ;; k" := (bind m (fun x => k))
  (at level 61, m at next level, right associativity).
Notation "m ;; k" := (bind m (fun _ => k))
  (at level 61, right associativity).

Definition orThrow (throws : option string) : M unit :=
  match throws with
  | None => ret tt
  | Some message => throw message
  end.

Definition ofResult {A : Type} (r : A + string) : M A :=
  match r with
  | inl a => ret a
  | inr message => throw message
  end.

Section WithEnv.
Variable env : Env.

(** [mkdir(dir, { recursive: true })]. *)
Definition mkdir (dir : string) : M unit :=
  orThrow (mkdirThrows env) ;;
  fun w => (inl tt, {| dirs := dir :: dirs w; uploaded := uploaded w |}).

(** [rm(dir, { recursive: true, force: true })]. *)
Definition rm (dir : string) : M unit :=
  orThrow (rmThrows env) ;;
  fun w => (inl tt, {| dirs := List.remove string_dec dir (dirs w);
                       uploaded := uploaded w |}).

Definition writeFile (path content : string) : M unit :=
  orThrow (writeFileThrows env).

(** [Promise.all(downloads.map(downloadFile))]: it rejects as soon as one
    download does, here the first of the list. *)
Fixpoint downloadAll (downloads : list (string * string)) : M unit :=
  match downloads with
  | [] => ret tt
  | (url, _) :: rest => orThrow (downloadFileThrows env url) ;; downloadAll rest
  end.

Definition execFfmpeg (args : list string) : M unit :=
  orThrow (ffmpegThrows env args).

Definition upload (localPath key : string) : M string :=
  url <- ofResult (uploadToS3 env localPath key) ;;
  fun w => (inl url, {| dirs := dirs w; uploaded := key :: uploaded w |}).

Definition jobDirOf (jobId : string) : string :=
  (TEMP_DIR env ++ "/" ++ jobId)%string.

Definition optionalInput (present : option string) (input : list string) : list string :=
  if JS.truthy present then input else [].

(** [if (url) downloads.push({ url, path })]. *)
Definition optionalDownload (url : option string) (path : string)
  : list (string * string) :=
  match url with
  | Some u => if JS.truthy url then [(u, path)] else []
  | None => []
  end.

(** The array [downloads]. *)
Definition downloadsOf (jobDir : string) (data : Compose.VideoComposeJobData)
  : list (string * string) :=
  [(Compose.audioUrl data, (jobDir ++ "/audio.mp3")%string)]
  ++ optionalDownload (Compose.musicUrl data) (jobDir ++ "/music.mp3")%string
  ++ optionalDownload (Compose.watermarkUrl data) (jobDir ++ "/watermark.png")%string.

(** The array [args] handed to the engine. *)
Definition ffmpegArgs (drawtextFilter jobDir backgroundPath : string)
           (data : Compose.VideoComposeJobData) : list string :=
  let audioPath := (jobDir ++ "/audio.mp3")%string in
  let musicPath := (jobDir ++ "/music.mp3")%string in
  let watermarkPath := (jobDir ++ "/watermark.png")%string in
  let captionsPath := (jobDir ++ "/captions.ass")%string in
  let outputPath := (jobDir ++ "/output.mp4")%string in
  let inputs :=
    [ "-i"; backgroundPath; "-i"; audioPath ]%string
    ++ optionalInput (Compose.musicUrl data) [ "-stream_loop"; "-1"; "-i"; musicPath ]%string
    ++ optionalInput (Compose.watermarkUrl data) [ "-i"%string; watermarkPath ] in
  let audioSource :=
    if JS.truthy (Compose.musicUrl data) then "[audio]"%string else "1:a"%string in
  inputs
  ++ [ "-filter_complex"; Compose.filterComplex drawtextFilter captionsPath data;
       "-map"; "[final]"; "-map"; audioSource;
       "-c:v"; "libx264"; "-preset"; "fast"; "-crf"; "23";
       "-c:a"; "aac"; "-b:a"; "192k"; "-r"; "30";
       "-s"; JS.showInt (fst (Compose.resolution data)) ++ "x"
             ++ JS.showInt (snd (Compose.resolution data));
       "-shortest"; "-y"; outputPath ]%string.

(** The body of the [try] block of [processVideoCompose]. *)
Definition composeBody (drawtextFilter : string) (jobId : string)
           (data : Compose.VideoComposeJobData) : M JobResult :=
  let jobDir := jobDirOf jobId in
  let captionsPath := (jobDir ++ "/captions.ass")%string in
  let outputPath := (jobDir ++ "/output.mp4")%string in
  mkdir jobDir ;;
  writeFile captionsPath
    (Ass.generateASS (Compose.wordTimestamps data) (Compose.captionOptions data)) ;;
  backgroundPath <-
    ofResult (getCachedBackgroundVideo env
                (JS.orStr (Compose.backgroundId data) "default")
                (Compose.backgroundUrl data)) ;;
  downloadAll (downloadsOf jobDir data) ;;
  execFfmpeg (ffmpegArgs drawtextFilter jobDir backgroundPath data) ;;
  if storageModeS3 env then
    url <- upload outputPath (jobId ++ ".mp4")%string ;;
    rm jobDir ;;
    ret {| success := true; outputPath := None; outputUrl := Some url; error := None |}
  else
    ret {| success := true; outputPath := Some outputPath; outputUrl := None;
           error := None |}.

(** [processVideoCompose]: the [try] block and its [catch]; the text of
    the text watermark's filter is [drawtextFilter]. *)
Definition processVideoCompose (drawtextFilter : string) (jobId : string)
           (data : Compose.VideoComposeJobData) : M JobResult :=
  tryCatch
    (composeBody drawtextFilter jobId data)
    (fun errorMessage =>
       ignoreErrors (rm (jobDirOf jobId)) ;;
       ret {| success := false; outputPath := None; outputUrl := None;
              error := Some ("Failed to compose video: " ++ errorMessage)%string |}).

(** Every stage of the job went through: the workspace was created, the
    captions written, the background fetched, every download and the
    engine succeeded and, with object storage, so did the upload and the
    removal of the workspace. *)
Definition allStagesSucceed (drawtextFilter jobId : string)
           (data : Compose.VideoComposeJobData) : Prop :=
  mkdirThrows env = None
  /\ writeFileThrows env = None
  /\ (exists backgroundPath,
        getCachedBackgroundVideo env (JS.orStr (Compose.backgroundId data) "default")
                                 (Compose.backgroundUrl data) = inl backgroundPath
        /\ ffmpegThrows env
             (ffmpegArgs drawtextFilter (jobDirOf jobId) backgroundPath data) = None)
  /\ (forall url path, In (url, path) (downloadsOf (jobDirOf jobId) data) ->
                       downloadFileThrows env url = None)
  /\ (storageModeS3 env = true ->
      rmThrows env = None
      /\ exists url, uploadToS3 env (jobDirOf jobId ++ "/output.mp4")%string
                                (jobId ++ ".mp4")%string = inl url).

End WithEnv.


(** The same environment with object storage. *)
Definition s3Env : Env :=
  {| TEMP_DIR := "/tmp/ffmpeg-rest";
     storageModeS3 := true;
     mkdirThrows := None;
     writeFileThrows := None;
     getCachedBackgroundVideo := fun id _ => inl ("/tmp/cache/" ++ id ++ ".mp4")%string;
     downloadFileThrows := fun _ => None;
     ffmpegThrows := fun _ => None;
     uploadToS3 := fun _ key => inl ("https://cdn.example/" ++ key)%string;
     rmThrows := None |}.

Definition emptyWorld : World := {| dirs := []; uploaded := [] |}.

(** Object storage, with an engine that exits with an error. *)
Definition engineFailsEnv : Env :=
  {| TEMP_DIR := "/tmp/ffmpeg-rest";
     storageModeS3 := true;
     mkdirThrows := None;
     writeFileThrows := None;
     getCachedBackgroundVideo := fun id _ => inl ("/tmp/cache/" ++ id ++ ".mp4")%string;
     downloadFileThrows := fun _ => None;
     ffmpegThrows := fun _ => Some "Command failed: ffmpeg"%string;
     uploadToS3 := fun _ key => inl ("https://cdn.example/" ++ key)%string;
     rmThrows := None |}.


End Job.

(* ------------------------------------------------------------------ *)
(** ** More JavaScript string operations *)

Module Text.

(** [s.replace(/c/g, r)] for a one-character pattern. *)
Fixpoint replaceAll (c : ascii) (r : string) (s : string) : string :=
  match s with
  | EmptyString => EmptyString
  | String a rest =>
      if Ascii.eqb a c then (r ++ replaceAll c r rest)%string
      else String a (replaceAll c r rest)
  end.

(** [s.includes(c)] for a one-character string. *)
Fixpoint includes (c : ascii) (s : string) : bool :=
  match s with
  | EmptyString => false
  | String a rest => Ascii.eqb a c || includes c rest
  end.

(** [s.split(c)] for a one-character separator. *)
Fixpoint split (c : ascii) (s : string) : list string :=
  match s with
  | EmptyString => [EmptyString]
  | String a rest =>
      if Ascii.eqb a c then EmptyString :: split c rest
      else match split c rest with
           | p :: ps => String a p :: ps
           | [] => [String a EmptyString]
           end
  end.

(** ASCII white space, what [trim] removes. *)
Definition isSpace (a : ascii) : bool :=
  let n := nat_of_ascii a in
  Nat.eqb n 32 || (Nat.leb 9 n && Nat.leb n 13).

Fixpoint trimStart (s : string) : string :=
  match s with
  | EmptyString => EmptyString
  | String a rest => if isSpace a then trimStart rest else s
  end.

Fixpoint trimEnd (s : string) : string :=
  match s with
  | EmptyString => EmptyString
  | String a rest =>
      match trimEnd rest with
      | EmptyString => if isSpace a then EmptyString else String a EmptyString
      | kept => String a kept
      end
  end.

(** [s.trim()]. *)
Definition trim (s : string) : string := trimEnd (trimStart s).

Definition isUpper (a : ascii) : bool :=
  let n := nat_of_ascii a in Nat.leb 65 n && Nat.leb n 90.

(** [s.replace(/([A-Z])/g, ' $1')]: a space before every capital. *)
Fixpoint spaceBeforeCapitals (s : string) : string :=
  match s with
  | EmptyString => EmptyString
  | String a rest =>
      if isUpper a then String " " (String a (spaceBeforeCapitals rest))
      else String a (spaceBeforeCapitals rest)
  end.

(** [n.toString(16)] of an integer. *)
Definition toStringHex (z : Z) : string :=
  HexadecimalString.NilZero.string_of_int (Z.to_hex_int z).



End Text.

(* ------------------------------------------------------------------ *)
(** ** The text watermark of [processVideoCompose] *)

Module Drawtext.
Import Watermark.

(** [hexToFFmpegColor]: [0xRRGGBBAA]. *)
Definition hexToFFmpegColor (hexColor : string) (opacity : Q) : string :=
  let hex := JS.removeFirst "#" hexColor in
  let alphaHex := JS.padStart0 2 (Text.toStringHex (JS.round (opacity * 255))) in
  ("0x" ++ hex ++ alphaHex)%string.

(** The object [{ x, y }] that [getDrawtextPosition] returns. *)
Record TextPosition : Type := mkTextPosition {
  x : string;
  y : string
}.

(** [getDrawtextPosition(position, padding = 475)]. *)
Definition getDrawtextPosition (position : WatermarkPosition) (padding : option Q)
  : TextPosition :=
  let p := JS.showNumber (match padding with Some v => v | None => 475 end) in
  match position with
  | TopLeft => mkTextPosition p p
  | TopCenter => mkTextPosition "(w-text_w)/2" p
  | TopRight => mkTextPosition ("w-text_w-" ++ p) p
  | MiddleLeft => mkTextPosition p "(h-text_h)/2"
  | MiddleCenter => mkTextPosition "(w-text_w)/2" "(h-text_h)/2"
  | MiddleRight => mkTextPosition ("w-text_w-" ++ p) "(h-text_h)/2"
  | BottomLeft => mkTextPosition p ("h-text_h-" ++ p)
  | BottomCenter => mkTextPosition "(w-text_w)/2" ("h-text_h-" ++ p)
  | BottomRight => mkTextPosition ("w-text_w-" ++ p) ("h-text_h-" ++ p)
  end%string.

(** [escapedText]: quotes, then colons. *)
Definition escapeText (watermarkText : string) : string :=
  Text.replaceAll ":" "\:" (Text.replaceAll "'" "'\''" watermarkText).

(** The pair [fontFamily], [fontStyle] read from [watermarkFontFamily]. *)
Definition fontOf (watermarkFontFamily : string) : string * string :=
  if Text.includes "-" watermarkFontFamily then
    let parts := Text.split "-" watermarkFontFamily in
    if Nat.leb 3 (List.length parts) then
      ((nth 0 parts EmptyString ++ " " ++ nth 1 parts EmptyString)%string,
       JS.join " " (skipn 2 parts))
    else if Nat.eqb (List.length parts) 2 then
      (Text.trim (Text.spaceBeforeCapitals (nth 0 parts EmptyString)),
       nth 1 parts EmptyString)
    else ("Liberation Sans"%string, "Bold"%string)
  else ("Liberation Sans"%string, "Bold"%string).

(** The options of the text watermark, each with its destructuring
    default. *)
Record TextWatermarkOptions : Type := mkTextOptions {
  watermarkFontFamily : option string;
  watermarkFontSize : option Q;
  watermarkFontColor : option string;
  watermarkBorderWidth : option Q;
  watermarkBorderColor : option string;
  watermarkShadowColor : option string;
  watermarkShadowX : option Q;
  watermarkShadowY : option Q;
  watermarkOpacity : option Q;
  watermarkPadding : option Q
}.

(** The template literal [drawtextFilter]. *)
Definition drawtextFilter (watermarkText : string) (position : WatermarkPosition)
           (o : TextWatermarkOptions) : string :=
  let opacity := Compose.withDefault (watermarkOpacity o) (85 # 100) in
  let textPosition := getDrawtextPosition position (watermarkPadding o) in
  let fontColor :=
    hexToFFmpegColor (Compose.withDefault (watermarkFontColor o) "#FFFFFF"%string) opacity in
  let borderColor :=
    hexToFFmpegColor (Compose.withDefault (watermarkBorderColor o) "#000000"%string) opacity in
  let shadowColor :=
    hexToFFmpegColor (Compose.withDefault (watermarkShadowColor o) "#000000"%string) opacity in
  let font := fontOf (Compose.withDefault (watermarkFontFamily o) "Liberation-Sans-Bold"%string) in
  ("drawtext=fontfile='" ++ fst font ++ "\:style=" ++ snd font
   ++ "':text='" ++ escapeText watermarkText
   ++ "':fontsize=" ++ JS.showNumber (Compose.withDefault (watermarkFontSize o) 48)
   ++ ":fontcolor=" ++ fontColor
   ++ ":borderw=" ++ JS.showNumber (Compose.withDefault (watermarkBorderWidth o) 2)
   ++ ":bordercolor=" ++ borderColor
   ++ ":shadowcolor=" ++ shadowColor
   ++ ":shadowx=" ++ JS.showNumber (Compose.withDefault (watermarkShadowX o) 2)
   ++ ":shadowy=" ++ JS.showNumber (Compose.withDefault (watermarkShadowY o) 2)
   ++ ":x=" ++ x textPosition ++ ":y=" ++ y textPosition)%string.


End Drawtext.

(* ------------------------------------------------------------------ *)
(** ** Files, commands and downloads *)

Module Sys.

(** What the jobs below read and change: the paths that exist, the URLs
    fetched so far, the commands run so far and the keys written to
    object storage, each log in the order of the events. *)
Record State : Type := mkState {
  files : list string;
  fetched : list string;
  commands : list (list string);
  objects : list string
}.

(** A computation over that state that returns a value ([inl]) or throws a
    message ([inr]). *)
Definition M (A : Type) : Type := State -> (A + string) * State.

Definition ret {A : Type} (a : A) : M A := fun st => (inl a, st).

Definition throw {A : Type} (message : string) : M A := fun st => (inr message, st).

Definition bind {A B : Type} (m : M A) (k : A -> M B) : M B :=
  fun st =>
    match m st with
    | (inl a, st') => k a st'
    | (inr message, st') => (inr message, st')
    end.

(** [try { body } catch (error) { handler(error.message) }]. *)
Definition tryCatch {A : Type} (body : M A) (handler : string -> M A) : M A :=
  fun st =>
    match body st with
    | (inl a, st') => (inl a, st')
    | (inr message, st') => handler message st'
    end.

Notation "x <- m ;; k" := (bind m (fun x => k))
  (at level 61, m at next level, right associativity).
Notation "m ;; k" := (bind m (fun _ => k))
  (at level 61, right associativity).

Definition orThrow (throws : option string) : M unit :=
  match throws with
  | None => ret tt
  | Some message => throw message
  end.

Definition ofResult {A : Type} (r : A + string) : M A :=
  match r with
  | inl a => ret a
  | inr message => throw message
  end.

(** What a [fetch] of a URL and the streaming of its body come to. *)
Inductive Fetch : Type :=
| FetchThrows (message : string)
| NotOk (status statusText : string)
| NoBody
| StreamBreaks (message : string)
| Complete.

(** The collaborators of the jobs.  An operation that can throw is given
    by the message it throws, if any, or by its value or message. *)
Record Env : Type := mkEnv {
  TEMP_DIR : string;
  OVERLAYS_DIR : string;
  storageModeS3 : bool;
  dirname : string -> string;
  basename : string -> string;
  fetch : string -> Fetch;
  mkdirThrows : option string;
  copyFileThrows : option string;
  rmThrows : option string;
  ffprobe : list string -> string + string;
  ffmpegThrows : list string -> option string;
  uploadToS3 : string -> string -> string -> string + string
}.

(** [existsSync(path)]. *)
Definition existsIn (path : string) (st : State) : bool :=
  existsb (String.eqb path) (files st).

Definition existsSync (path : string) : M bool :=
  fun st => (inl (existsIn path st), st).

Definition addFile (path : string) : M unit :=
  fun st => (inl tt, {| files := path :: files st; fetched := fetched st;
                        commands := commands st; objects := objects st |}).

Section WithEnv.
Variable env : Env.

(** [mkdir(dir, { recursive: true })]. *)
Definition mkdir (dir : string) : M unit :=
  orThrow (mkdirThrows env) ;; addFile dir.

(** [rm(path, { force: true })] of a file. *)
Definition rmFile (path : string) : M unit :=
  orThrow (rmThrows env) ;;
  fun st => (inl tt, {| files := List.remove string_dec path (files st);
                        fetched := fetched st; commands := commands st;
                        objects := objects st |}).

(** [rm(dir, { recursive: true, force: true })]: the directory and all
    that lies below it. *)
Definition rmTree (dir : string) : M unit :=
  orThrow (rmThrows env) ;;
  fun st =>
    (inl tt,
     {| files := filter (fun p => negb (String.eqb p dir
                                        || String.prefix (dir ++ "/") p))
                        (files st);
        fetched := fetched st; commands := commands st; objects := objects st |}).

(** [downloadFile(url, outputPath)] of [src/utils/download.ts].  The file
    is opened for writing before the body is streamed and is not removed
    when the stream breaks. *)
Definition downloadFile (url outputPath : string) : M unit :=
  (fun st => (inl tt, {| files := files st; fetched := fetched st ++ [url];
                         commands := commands st; objects := objects st |})) ;;
  match fetch env url with
  | FetchThrows message => throw message
  | NotOk status statusText =>
      throw ("Failed to download " ++ url ++ ": " ++ status ++ " " ++ statusText)%string
  | NoBody => throw ("No response body for " ++ url)%string
  | StreamBreaks message =>
      mkdir (dirname env outputPath) ;; addFile outputPath ;; throw message
  | Complete =>
      mkdir (dirname env outputPath) ;; addFile outputPath
  end.

(** The path of the cached background [backgroundId]. *)
Definition cachedPathOf (backgroundId : string) : string :=
  ("/tmp/cache/backgrounds" ++ "/" ++ backgroundId ++ ".mp4")%string.

(** [getCachedBackgroundVideo(backgroundId, backgroundUrl)]. *)
Definition getCachedBackgroundVideo (backgroundId backgroundUrl : string) : M string :=
  let cacheDir := "/tmp/cache/backgrounds"%string in
  let cachedPath := cachedPathOf backgroundId in
  hit <- existsSync cachedPath ;;
  if hit then ret cachedPath
  else
    mkdir cacheDir ;;
    downloadFile backgroundUrl cachedPath ;;
    ret cachedPath.

(** [execFileAsync('ffprobe', args)]: the standard output. *)
Definition execFfprobe (args : list string) : M string :=
  (fun st => (inl tt, {| files := files st; fetched := fetched st;
                         commands := commands st ++ [("ffprobe"%string :: args)];
                         objects := objects st |})) ;;
  ofResult (ffprobe env args).

(** [execFileAsync('ffmpeg', args)]; on success the output file
    [outputPath] exists. *)
Definition execFfmpeg (args : list string) (outputPath : string) : M unit :=
  (fun st => (inl tt, {| files := files st; fetched := fetched st;
                         commands := commands st ++ [("ffmpeg"%string :: args)];
                         objects := objects st |})) ;;
  orThrow (ffmpegThrows env args) ;;
  addFile outputPath.

(** [uploadToS3(localPath, contentType, key, ...)]: the public URL. *)
Definition upload (localPath contentType key : string) : M string :=
  url <- ofResult (uploadToS3 env localPath contentType key) ;;
  fun st => (inl url, {| files := files st; fetched := fetched st;
                         commands := commands st; objects := objects st ++ [key] |}).

End WithEnv.

(** Collaborators that all succeed, with local storage; the probes answer
    [h264]. *)
Definition quietEnv : Env :=
  {| TEMP_DIR := "/tmp/ffmpeg-rest";
     OVERLAYS_DIR := "/app/assets/overlays";
     storageModeS3 := false;
     dirname := fun _ => "/out"%string;
     basename := fun _ => "a.mp4"%string;
     fetch := fun _ => Complete;
     mkdirThrows := None;
     copyFileThrows := None;
     rmThrows := None;
     ffprobe := fun _ => inl "h264"%string;
     ffmpegThrows := fun _ => None;
     uploadToS3 := fun _ _ key => inl ("https://cdn.example/" ++ key)%string |}.

(** The same collaborators with a network whose streams break. *)
Definition brokenStreamEnv : Env :=
  {| TEMP_DIR := "/tmp/ffmpeg-rest";
     OVERLAYS_DIR := "/app/assets/overlays";
     storageModeS3 := false;
     dirname := fun _ => "/tmp/cache/backgrounds"%string;
     basename := fun _ => "a.mp4"%string;
     fetch := fun _ => StreamBreaks "aborted";
     mkdirThrows := None;
     copyFileThrows := None;
     rmThrows := None;
     ffprobe := fun _ => inl "h264"%string;
     ffmpegThrows := fun _ => None;
     uploadToS3 := fun _ _ key => inl ("https://cdn.example/" ++ key)%string |}.

Definition emptyState : State :=
  {| files := []; fetched := []; commands := []; objects := [] |}.

Definition stateWith (paths : list string) : State :=
  {| files := paths; fetched := []; commands := []; objects := [] |}.

End Sys.

(* ------------------------------------------------------------------ *)
(** ** Conversion to MP4, [processVideoToMp4] *)

Module Convert.
Import Sys.

(** [VideoToMp4JobData]. *)
Record VideoToMp4JobData : Type := mkToMp4 {
  inputPath : string;
  outputPath : string;
  crf : Q;
  preset : string;
  smartCopy : bool
}.

(** The arguments of the codec probe for the stream [selector]. *)
Definition codecProbeArgs (selector path : string) : list string :=
  [ "-v"; "error"; "-select_streams"; selector; "-show_entries"; "stream=codec_name";
    "-of"; "default=noprint_wrappers=1:nokey=1"; path ]%string.

Definition copyArgs (data : VideoToMp4JobData) : list string :=
  [ "-i"; inputPath data; "-c"; "copy"; "-movflags"; "+faststart"; "-y";
    outputPath data ]%string.

Definition encodeArgs (data : VideoToMp4JobData) : list string :=
  [ "-i"; inputPath data; "-codec:v"; "libx264"; "-preset"; preset data;
    "-crf"; JS.showNumber (crf data); "-codec:a"; "aac"; "-b:a"; "128k";
    "-movflags"; "+faststart"; "-y"; outputPath data ]%string.

Section WithEnv.
Variable env : Env.

(** [shouldCopyStreams]: both probes, then the comparison; any error is
    caught and means no. *)
Definition shouldCopyStreams (path : string) : M bool :=
  tryCatch
    (videoCodec <- execFfprobe env (codecProbeArgs "v:0" path) ;;
     audioCodec <- execFfprobe env (codecProbeArgs "a:0" path) ;;
     ret (String.eqb (Text.trim videoCodec) "h264"
          && String.eqb (Text.trim audioCodec) "aac"))
    (fun _ => ret false).

(** [processVideoToMp4]. *)
Definition processVideoToMp4 (data : VideoToMp4JobData) : M Job.JobResult :=
  present <- existsSync (inputPath data) ;;
  if negb present then
    ret {| Job.success := false; Job.outputPath := None; Job.outputUrl := None;
           Job.error := Some ("Input file does not exist: " ++ inputPath data)%string |}
  else
    tryCatch
      (mkdir env (dirname env (outputPath data)) ;;
       copy <- (if smartCopy data then shouldCopyStreams (inputPath data) else ret false) ;;
       (if copy
        then execFfmpeg env (copyArgs data) (outputPath data)
        else execFfmpeg env (encodeArgs data) (outputPath data)) ;;
       if storageModeS3 env then
         url <- upload env (outputPath data) "video/mp4" (basename env (outputPath data)) ;;
         rmFile env (outputPath data) ;;
         ret {| Job.success := true; Job.outputPath := None; Job.outputUrl := Some url;
                Job.error := None |}
       else
         ret {| Job.success := true; Job.outputPath := Some (outputPath data);
                Job.outputUrl := None; Job.error := None |})
      (fun errorMessage =>
         ret {| Job.success := false; Job.outputPath := None; Job.outputUrl := None;
                Job.error := Some ("Failed to convert video to MP4: " ++ errorMessage)%string |}).

(** Both probes answer, with [h264] and [aac] once trimmed. *)
Definition codecsAllowCopy (path : string) : bool :=
  match ffprobe env (codecProbeArgs "v:0" path),
        ffprobe env (codecProbeArgs "a:0" path) with
  | inl videoCodec, inl audioCodec =>
      String.eqb (Text.trim videoCodec) "h264" && String.eqb (Text.trim audioCodec) "aac"
  | _, _ => false
  end.

(** The arguments and the [ffmpeg] command of the conversion. *)
Definition conversionArgs (data : VideoToMp4JobData) : list string :=
  if smartCopy data && codecsAllowCopy (inputPath data)
  then copyArgs data else encodeArgs data.

Definition conversionCommand (data : VideoToMp4JobData) : list string :=
  "ffmpeg"%string :: conversionArgs data.

End WithEnv.

Definition sampleConversion : VideoToMp4JobData :=
  mkToMp4 "/in/a.mov" "/out/a.mp4" 23 "medium" true.

Definition isProbe (command : list string) : bool :=
  match command with
  | tool :: _ => String.eqb tool "ffprobe"
  | [] => false
  end.

End Convert.

(* ------------------------------------------------------------------ *)
(** ** Overlay anchors, [src/utils/overlay-positions.ts] *)

Module OverlayPos.

Inductive OverlayPosition : Type :=
| TopRight | TopLeft | BottomRight | BottomLeft.


(** Its later revision, in which a margin below 1 is a fraction of the
    background's width or height. *)
Definition getOverlayPosition (position : option OverlayPosition)
           (marginX marginY : option Q) : string :=
  let marginX := match marginX with Some v => v | None => 20 end in
  let marginY := match marginY with Some v => v | None => 20 end in
  let mx := if JS.gt 1 marginX then ("W*" ++ JS.showNumber marginX)%string
            else JS.showNumber marginX in
  let my := if JS.gt 1 marginY then ("H*" ++ JS.showNumber marginY)%string
            else JS.showNumber marginY in
  match match position with Some v => v | None => TopRight end with
  | TopLeft => mx ++ ":" ++ my
  | TopRight => "W-w-" ++ mx ++ ":" ++ my
  | BottomLeft => mx ++ ":H-h-" ++ my
  | BottomRight => "W-w-" ++ mx ++ ":H-h-" ++ my
  end%string.

End OverlayPos.

(* ------------------------------------------------------------------ *)
(** ** The overlay job, [processVideoOverlay] *)

Module OverlayJob.
Import Sys OverlayPos.

(** [VideoOverlayJobData]; a field with a destructuring default is
    optional. *)
Record VideoOverlayJobData : Type := mkOverlayData {
  videoUrl : string;
  overlayAsset : option string;
  overlayUrl : option string;
  overlayPosition : option OverlayPosition;
  overlayScale : option Q;
  overlayMarginX : option Q;
  overlayMarginY : option Q
}.

Definition sizeProbeArgs (path : string) : list string :=
  [ "-v"; "quiet"; "-select_streams"; "v:0"; "-show_entries"; "stream=width,height";
    "-of"; "csv=p=0"; path ]%string.

Definition failure (message : string) : Job.JobResult :=
  {| Job.success := false; Job.outputPath := None; Job.outputUrl := None;
     Job.error := Some message |}.

Section WithEnv.
Variable env : Env.

(** The width and height that [probeOut.trim().split(',').map(Number)]
    reads from the probe of a file, or the message the probe throws. *)
Variable probeSize : string -> (Z * Z) + string.

Definition execSizeProbe (path : string) : M (Z * Z) :=
  (fun st => (inl tt, {| files := files st; fetched := fetched st;
                         commands := commands st ++ [("ffprobe"%string :: sizeProbeArgs path)];
                         objects := objects st |})) ;;
  ofResult (probeSize path).

(** [copyFile(from, to)]. *)
Definition copyFile (from to : string) : M unit :=
  orThrow (copyFileThrows env) ;; addFile to.

Definition jobDirOf (jobId : string) : string := (TEMP_DIR env ++ "/" ++ jobId)%string.

Definition assetPathOf (asset : string) : string :=
  (OVERLAYS_DIR env ++ "/" ++ asset ++ ".png")%string.

(** The string behind an optional field that has been found truthy. *)
Definition valueOf (x : option string) : string :=
  match x with Some v => v | None => EmptyString end.

(** Step 2 of the job, the overlay image: [Some result] is the [return]
    of that result from inside the [try] block. *)
Definition resolveOverlay (data : VideoOverlayJobData) (overlayPath : string)
  : M (option Job.JobResult) :=
  if JS.truthy (overlayAsset data) then
    let asset := valueOf (overlayAsset data) in
    present <- existsSync (assetPathOf asset) ;;
    if negb present then
      ret (Some (failure ("Overlay asset not found: " ++ asset ++ " (looked in "
                          ++ OVERLAYS_DIR env ++ ")")%string))
    else copyFile (assetPathOf asset) overlayPath ;; ret None
  else if JS.truthy (overlayUrl data) then
    downloadFile env (valueOf (overlayUrl data)) overlayPath ;; ret None
  else
    ret (Some (failure "Either overlayAsset or overlayUrl must be provided")).

(** The array [args] of the overlay command. *)
Definition overlayArgs (videoPath overlayPath outputPath filterComplex : string)
  : list string :=
  [ "-i"; videoPath; "-i"; overlayPath; "-filter_complex"; filterComplex;
    "-c:a"; "copy"; "-c:v"; "libx264"; "-preset"; "fast"; "-crf"; "23"; "-y";
    outputPath ]%string.

(** Steps 3 to 5: probe, scale, run the engine, store. *)
Definition overlayRender (jobId : string) (data : VideoOverlayJobData) : M Job.JobResult :=
  let jobDir := jobDirOf jobId in
  let videoPath := (jobDir ++ "/input.mp4")%string in
  let overlayPath := (jobDir ++ "/overlay.png")%string in
  let outputPath := (jobDir ++ "/output.mp4")%string in
  video <- execSizeProbe videoPath ;;
  ovl <- execSizeProbe overlayPath ;;
  let position :=
    getOverlayPosition (Some (match overlayPosition data with
                              | Some v => v | None => TopRight end))
                       (Some (match overlayMarginX data with Some v => v | None => 20 end))
                       (Some (match overlayMarginY data with Some v => v | None => 20 end)) in
  let filterComplex :=
    Overlay.filterComplex (fst video) (fst ovl) (snd ovl) (overlayScale data) position in
  execFfmpeg env (overlayArgs videoPath overlayPath outputPath filterComplex) outputPath ;;
  if storageModeS3 env then
    url <- upload env outputPath "video/mp4" (jobId ++ ".mp4")%string ;;
    rmTree env jobDir ;;
    ret {| Job.success := true; Job.outputPath := None; Job.outputUrl := Some url;
           Job.error := None |}
  else
    ret {| Job.success := true; Job.outputPath := Some outputPath; Job.outputUrl := None;
           Job.error := None |}.

(** [processVideoOverlay]. *)
Definition processVideoOverlay (jobId : string) (data : VideoOverlayJobData)
  : M Job.JobResult :=
  let jobDir := jobDirOf jobId in
  tryCatch
    (mkdir env jobDir ;;
     downloadFile env (videoUrl data) (jobDir ++ "/input.mp4")%string ;;
     returned <- resolveOverlay data (jobDir ++ "/overlay.png")%string ;;
     match returned with
     | Some result => ret result
     | None => overlayRender jobId data
     end)
    (fun errorMessage =>
       tryCatch (rmTree env jobDir) (fun _ => ret tt) ;;
       ret (failure ("Failed to overlay video: " ++ errorMessage)%string)).

End WithEnv.

(** A request that names a bundled overlay and also gives a URL. *)
Definition assetRequest : VideoOverlayJobData :=
  {| videoUrl := "https://cdn.example/clip.mp4";
     overlayAsset := Some "vicsee"%string;
     overlayUrl := Some "https://cdn.example/logo.png"%string;
     overlayPosition := None; overlayScale := None;
     overlayMarginX := None; overlayMarginY := None |}.

(** A request that gives neither. *)
Definition emptyRequest : VideoOverlayJobData :=
  {| videoUrl := "https://cdn.example/clip.mp4";
     overlayAsset := None; overlayUrl := None;
     overlayPosition := None; overlayScale := None;
     overlayMarginX := None; overlayMarginY := None |}.

End OverlayJob.

(* ------------------------------------------------------------------ *)
(** ** The compose endpoint, [composeVideoRoute] of
       [src/components/video/controller.ts] *)

Module Route.


(** The queue between the endpoint and the worker: [addJob] and
    [waitUntilFinished] by the message they throw, if any, the identifier
    the queue gives the job, and the [z.url()] test of the result
    schema. *)
Record Queue : Type := mkQueue {
  addJobThrows : option string;
  jobId : string;
  waitThrows : option string;
  isUrl : string -> bool
}.




(** A queue that works and accepts every URL. *)
Definition plainQueue : Queue :=
  {| addJobThrows := None; jobId := "job-1"; waitThrows := None; isUrl := fun _ => true |}.

End Route.

(* ------------------------------------------------------------------ *)
(** ** The labels of the [xfade] chain of [processVideoMerge] *)

Module MergeChain.

(** The label that carries the picture after clip [i] of [n] has been
    joined: the scaled first clip, an intermediate [xv] label, or the
    label the engine is told to map. *)
Definition labelAfter (n i : nat) : string :=
  if Nat.eqb i 0 then "v0"%string
  else if Nat.eqb i (n - 1) then "vout"%string
  else ("xv" ++ JS.showInt (Z.of_nat i))%string.

(** The filter that joins clip [i] of [n] at offset [off]. *)
Definition xfadeText (n : nat) (transitionDuration : Q) (i : nat) (off : Q) : string :=
  ("[" ++ labelAfter n (i - 1) ++ "][v" ++ JS.showInt (Z.of_nat i)
   ++ "]xfade=transition=fade:duration=" ++ JS.showNumber transitionDuration
   ++ ":offset=" ++ JS.toFixed3 off
   ++ "[" ++ labelAfter n i ++ "];")%string.

End MergeChain.

(* ================================================================== *)
(** * Properties *)

Module AssFacts.
Import Ass.

Lemma word_eta (w : WordTimestamp) : mkWord (word w) (start w) (end_ w) = w.
Proof. destruct w; reflexivity. Qed.

Lemma isLastWord_at (pre rest : list WordTimestamp) (w : WordTimestamp) :
  isLastWord (pre ++ w :: rest) (List.length pre)
  = match rest with [] => true | _ :: _ => false end.
Proof.
  unfold isLastWord. rewrite length_app. simpl.
  destruct rest as [|n rest]; simpl.
  - apply Nat.eqb_eq. lia.
  - apply Nat.eqb_neq. lia.
Qed.

Lemma next_at (pre rest : list WordTimestamp) (w : WordTimestamp) :
  nth_error (pre ++ w :: rest) (S (List.length pre)) = nth_error rest 0.
Proof.
  rewrite nth_error_app2 by lia.
  replace (S (List.length pre) - List.length pre)%nat with 1%nat by lia.
  reflexivity.
Qed.

Lemma shouldClose_at (maxW : Z) (pre rest cur : list WordTimestamp) (w : WordTimestamp) :
  shouldClose (pre ++ w :: rest) maxW cur w (List.length pre)
  = match rest with
    | [] => true
    | next :: _ => segmentFull cur maxW || gapAfter w next
    end.
Proof.
  unfold shouldClose, nextWordHasGap.
  rewrite isLastWord_at, next_at.
  destruct rest; simpl; [reflexivity|].
  reflexivity.
Qed.

(** The [forEach] of the source and the recursion [segGo] produce the same
    segments, from any point of the traversal on. *)
Lemma forEachFrom_segGo (maxW : Z) (l pre : list WordTimestamp) (st : SegState) :
  segments (JS.forEachFrom (segStep (pre ++ l) maxW) l (List.length pre) st)
  = segments st ++ segGo maxW (currentSegment st) (segmentStartTime st) l.
Proof.
  revert pre st. induction l as [|w rest IH]; intros pre st; simpl.
  - now rewrite app_nil_r.
  - assert (E : pre ++ w :: rest = (pre ++ [w]) ++ rest) by now rewrite <- app_assoc.
    assert (L : S (List.length pre) = List.length (pre ++ [w]))
      by (rewrite length_app; simpl; lia).
    rewrite L. rewrite E at 1. rewrite IH. clear IH.
    unfold segStep. rewrite word_eta, shouldClose_at.
    destruct rest as [|next rest']; simpl.
    + now rewrite app_nil_r.
    + destruct (segmentFull (currentSegment st ++ [w]) maxW || gapAfter w next); simpl.
      * now rewrite <- app_assoc.
      * reflexivity.
Qed.

Lemma segmentWords_segGo (ts : list WordTimestamp) (maxW : Z) :
  segmentWords ts maxW = segGo maxW [] 0 ts.
Proof.
  unfold segmentWords, JS.forEach.
  apply (forEachFrom_segGo maxW ts [] segInit).
Qed.

(** *** The shape of the produced segments *)

Section SegGo.
Variable maxW : Z.

Lemma segGo_cons (cur : list WordTimestamp) (s : Q) (w : WordTimestamp)
      (rest : list WordTimestamp) :
  segGo maxW cur s (w :: rest)
  = if match rest with
       | [] => true
       | next :: _ => segmentFull (cur ++ [w]) maxW || gapAfter w next
       end
    then mkSegment (if Nat.eqb (List.length cur) 0 then start w else s)
                   (end_ (List.last (cur ++ [w]) w)) (cur ++ [w])
           :: segGo maxW [] (if Nat.eqb (List.length cur) 0 then start w else s) rest
    else segGo maxW (cur ++ [w]) (if Nat.eqb (List.length cur) 0 then start w else s) rest.
Proof. reflexivity. Qed.

(** No word is lost, duplicated or reordered. *)
Lemma segGo_concat (rest cur : list WordTimestamp) (w : WordTimestamp) (s : Q) :
  List.concat (map words (segGo maxW cur s (w :: rest))) = cur ++ w :: rest.
Proof.
  revert cur w s. induction rest as [|next rest IH]; intros cur w s.
  - simpl. now rewrite app_nil_r.
  - rewrite segGo_cons.
    destruct (segmentFull (cur ++ [w]) maxW || gapAfter w next).
    + rewrite map_cons, concat_cons, IH. cbn [words]. now rewrite <- app_assoc.
    + rewrite IH. now rewrite <- app_assoc.
Qed.






(** Start and end times are those of the first and of the last word. *)
Lemma segGo_shape (l cur : list WordTimestamp) (s : Q) :
  (forall c cs, cur = c :: cs -> s = start c) ->
  Forall segmentShape (segGo maxW cur s l).
Proof.
  revert cur s. induction l as [|w rest IH]; intros cur s Hs; [constructor|].
  set (s' := if Nat.eqb (List.length cur) 0 then start w else s).
  assert (Hshape : segmentShape (mkSegment s' (end_ (List.last (cur ++ [w]) w)) (cur ++ [w]))).
  { unfold segmentShape. cbn [words startTime endTime].
    destruct cur as [|c cs].
    - exists w, []. repeat split; reflexivity.
    - exists c, (cs ++ [w]). repeat split.
      + subst s'. simpl. now apply (Hs c cs).
      + rewrite app_comm_cons. now rewrite !last_last. }
  assert (Hnext : forall c cs, cur ++ [w] = c :: cs -> s' = start c).
  { intros c cs E. subst s'. destruct cur as [|c' cs'].
    - simpl in E. injection E as <- _. reflexivity.
    - simpl in E. injection E as <- _. simpl. now apply (Hs c' cs'). }
  assert (Hnil : forall c cs, @nil WordTimestamp = c :: cs -> s' = start c)
    by (intros c cs E; discriminate E).
  cbn [segGo]. fold s'.
  destruct rest as [|next rest'].
  - constructor; [exact Hshape | constructor].
  - destruct (segmentFull (cur ++ [w]) maxW || gapAfter w next).
    + constructor; [exact Hshape | now apply IH].
    + now apply IH.
Qed.

End SegGo.

(** *** Lists of phrases cut from a sorted list of words *)

Section OrderedPairs.
Context {A : Type} (R : A -> A -> Prop).

Lemma StronglySorted_app_cross (a b : list A) :
  StronglySorted R (a ++ b) ->
  StronglySorted R b /\ (forall x y, In x a -> In y b -> R x y).
Proof.
  induction a as [|h a IH]; simpl; intros H.
  - split; [exact H | intros x y []].
  - apply StronglySorted_inv in H. destruct H as [H1 H2].
    destruct (IH H1) as [Hb Hc]. split; [exact Hb|].
    intros x y [<- | Hx] Hy.
    + rewrite Forall_forall in H2. apply H2, in_or_app. now right.
    + now apply Hc.
Qed.

Lemma ForallOrdPairs_strengthen (P Q : A -> A -> Prop) (G : A -> Prop) (l : list A) :
  Forall G l ->
  (forall a b, G a -> G b -> P a b -> Q a b) ->
  ForallOrdPairs P l -> ForallOrdPairs Q l.
Proof.
  intros HG HPQ HP. induction HP as [|a l Ha Hl IH].
  - constructor.
  - apply Forall_cons_iff in HG. destruct HG as [Ga Gl].
    constructor; [| now apply IH].
    rewrite Forall_forall in *. intros b Hb. apply HPQ; auto.
Qed.

Lemma last_in (w : A) (ws : list A) : In (List.last (w :: ws) w) (w :: ws).
Proof.
  destruct (@exists_last A (w :: ws)) as (l' & a & E); [discriminate|].
  rewrite E, last_last. apply in_or_app. right. now left.
Qed.

End OrderedPairs.

#[local] Instance wordBefore_trans : RelationClasses.Transitive wordBefore.
Proof.
  intros a b c (Ha & Hab & Hb) (_ & Hbc & Hc). repeat split; try assumption.
  apply Qle_trans with (start b); [assumption|].
  apply Qle_trans with (end_ b); assumption.
Qed.

(** Words of an earlier phrase precede the words of every later phrase. *)
Lemma phrases_cross (segs : list Segment) :
  StronglySorted wordBefore (List.concat (map words segs)) ->
  ForallOrdPairs
    (fun s1 s2 => forall x y, In x (words s1) -> In y (words s2) -> wordBefore x y) segs.
Proof.
  induction segs as [|sg segs IH]; intros H; [constructor|].
  rewrite map_cons, concat_cons in H.
  apply StronglySorted_app_cross in H. destruct H as [Hrest Hcross].
  constructor; [| now apply IH].
  rewrite Forall_forall. intros s2 Hs2 x y Hx Hy.
  apply Hcross; [exact Hx|].
  apply in_concat. exists (words s2). split; [now apply in_map | exact Hy].
Qed.

Lemma segmentWords_concat (ts : list WordTimestamp) (maxW : Z) :
  List.concat (map words (segmentWords ts maxW)) = ts.
Proof.
  rewrite segmentWords_segGo. destruct ts as [|w rest]; [reflexivity|].
  apply (segGo_concat maxW rest [] w 0).
Qed.

Lemma segmentWords_shape (ts : list WordTimestamp) (maxW : Z) :
  Forall segmentShape (segmentWords ts maxW).
Proof.
  rewrite segmentWords_segGo. apply segGo_shape. intros c cs E. discriminate E.
Qed.


End AssFacts.

(* ------------------------------------------------------------------ *)
(** ** Caption segmentation *)

Module Segmentation.
Import Ass AssFacts.

(** Scenario 2 of the specification: a 0.4 s pause after the second word
    splits three words into two segments although the maximum is 3. *)
Example pause_splits_below_maximum :
  segmentWords [ mkWord "one" 0 (2 # 10); mkWord "two" (2 # 10) (4 # 10);
                 mkWord "three" (8 # 10) 1 ] 3
  = [ mkSegment 0 (4 # 10) [ mkWord "one" 0 (2 # 10); mkWord "two" (2 # 10) (4 # 10) ];
      mkSegment (8 # 10) 1 [ mkWord "three" (8 # 10) 1 ] ].
Proof. reflexivity. Qed.



(** C5, as the code has it.  When every word ends no earlier than it
    starts and starts no earlier than the word before it ends, the produced
    segments follow one another in time: an earlier segment ends no later
    than any later segment starts, so two segments share at most a
    boundary instant. *)
Theorem segments_ordered_in_time (timestamps : list WordTimestamp) (maxWordsPerSegment : Z) :
  Sorted wordBefore timestamps ->
  ForallOrdPairs (fun a b => endTime a <= startTime b)
                 (segmentWords timestamps maxWordsPerSegment).
Proof.
  intros Hsorted.
  apply Sorted_StronglySorted in Hsorted; [|exact wordBefore_trans].
  rewrite <- (segmentWords_concat timestamps maxWordsPerSegment) in Hsorted.
  apply phrases_cross in Hsorted.
  eapply ForallOrdPairs_strengthen with (G := segmentShape);
    [apply segmentWords_shape | | exact Hsorted].
  cbv beta. intros a b (wa & wsa & Ea & _ & Enda) (wb & wsb & Eb & Startb & _) Hcross.
  rewrite Enda, Startb.
  apply (Hcross (List.last (wa :: wsa) wa) wb).
  - rewrite Ea. apply last_in.
  - rewrite Eb. now left.
Qed.

Lemma segments_ordered_in_time_witness :
  ForallOrdPairs (fun a b => endTime a <= startTime b)
    (segmentWords [ mkWord "a" 0 1; mkWord "b" 1 2; mkWord "c" 2 3; mkWord "d" 3 (7 # 2) ] 3).
Proof.
  apply segments_ordered_in_time.
  repeat (constructor; try (unfold wordBefore, Qle; simpl; lia)).
Defined.

(** C5, as stated, fails: the words of [overlappingWords] have
    non-decreasing starts and each ends after it starts, yet the two
    segments produced for them are [[0, 3]] and [[2.5, 3.5]]. *)
Lemma overlapping_words_overlapping_segments :
  ~ timeDisjoint (segmentWords overlappingWords 3).
Proof.
  assert (E : segmentWords overlappingWords 3
              = [ mkSegment 0 3 [ mkWord "a" 0 1; mkWord "b" 1 2; mkWord "c" 2 3 ];
                  mkSegment (5 # 2) (7 # 2) [ mkWord "d" (5 # 2) (7 # 2) ] ])
    by reflexivity.
  rewrite E. unfold timeDisjoint. intros H.
  inversion H as [|a l Ha Hl]; subst.
  inversion Ha as [|b l' Hab _]; subst.
  apply Hab. unfold overlap, Qle; simpl. lia.
Qed.

End Segmentation.

(* ------------------------------------------------------------------ *)
(** ** Rounding *)

Module NumFacts.

Lemma floor_spec (x : Q) :
  inject_Z (Qfloor x) <= x /\ x < inject_Z (Qfloor x) + 1.
Proof.
  split; [apply Qfloor_le|].
  generalize (Qlt_floor x). rewrite inject_Z_plus. now change (inject_Z 1) with 1.
Qed.

Lemma Zlt_of_inject (a b : Z) : inject_Z a < inject_Z b -> (a < b)%Z.
Proof. intros H. now rewrite Zlt_Qlt. Qed.

Lemma Zle_of_inject (a b : Z) : inject_Z a <= inject_Z b -> (a <= b)%Z.
Proof. intros H. now rewrite Zle_Qle. Qed.

Lemma Zle_of_inject_succ (a b : Z) : inject_Z a < inject_Z b + 1 -> (a <= b)%Z.
Proof.
  intros H. apply Z.lt_succ_r, Zlt_of_inject.
  unfold Z.succ. rewrite inject_Z_plus. now change (inject_Z 1) with 1.
Qed.






(** Bounds of [Math.floor(t / k)] cleared of the division. *)
Lemma floor_div_bounds (t k : Q) :
  0 < k ->
  inject_Z (Qfloor (t / k)) * k <= t /\ t < inject_Z (Qfloor (t / k)) * k + k.
Proof.
  intros Hk. destruct (floor_spec (t / k)) as [F1 F2].
  assert (E : t == (t / k) * k) by (field; lra).
  set (q := t / k) in *. set (a := inject_Z (Qfloor q)) in *.
  rewrite E. split; nra.
Qed.

(** On a non-negative dividend [%] subtracts the floored quotient. *)
Lemma rem_nonneg (t k : Q) :
  0 <= t -> 0 < k -> JS.rem t k = t - k * inject_Z (Qfloor (t / k)).
Proof.
  intros Ht Hk. unfold JS.rem, JS.trunc.
  assert (H : 0 <= t / k) by (apply Qle_shift_div_l; [exact Hk | lra]).
  apply Qle_bool_iff in H. now rewrite H.
Qed.

End NumFacts.

(* ------------------------------------------------------------------ *)
(** ** Dialogue timestamps *)

Module TimeFormat.
Import Ass NumFacts.

(** A field below 100 is rendered with exactly two digits that read back
    as the field. *)
Lemma two_digits (n : Z) :
  (0 <= n < 100)%Z ->
  String.length (JS.padStart0 2 (JS.showInt n)) = 2%nat
  /\ JS.readInt (JS.padStart0 2 (JS.showInt n)) = Some n.
Proof.
  intros Hn.
  assert (All : forallb JS.twoDigitCheck (seq 0 100) = true) by (vm_compute; reflexivity).
  rewrite forallb_forall in All.
  specialize (All (Z.to_nat n)).
  unfold JS.twoDigitCheck in All. rewrite Z2Nat.id in All by lia.
  assert (Hin : In (Z.to_nat n) (seq 0 100)) by (apply in_seq; lia).
  apply All in Hin. apply andb_true_iff in Hin. destruct Hin as [L R].
  split; [now apply Nat.eqb_eq|].
  destruct (JS.readInt (JS.padStart0 2 (JS.showInt n))) as [v|]; [|discriminate].
  apply Z.eqb_eq in R. now subst.
Qed.


Section Fields.
Variable seconds : Q.
Hypothesis nonneg : 0 <= seconds.

#[local] Abbreviation h := (hoursOf seconds).
#[local] Abbreviation m := (minsOf seconds).
#[local] Abbreviation s := (secsOf seconds).
#[local] Abbreviation c := (centisecondsOf seconds).

Lemma hours_bounds :
  inject_Z h * 3600 <= seconds /\ seconds < inject_Z h * 3600 + 3600.
Proof. apply floor_div_bounds. lra. Qed.

Lemma mins_bounds :
  inject_Z m * 60 <= seconds - 3600 * inject_Z h
  /\ seconds - 3600 * inject_Z h < inject_Z m * 60 + 60.
Proof.
  unfold minsOf, hoursOf, JS.floor. rewrite rem_nonneg by lra.
  apply floor_div_bounds. lra.
Qed.

Lemma secs_bounds :
  inject_Z s <= seconds - 60 * inject_Z (Qfloor (seconds / 60))
  /\ seconds - 60 * inject_Z (Qfloor (seconds / 60)) < inject_Z s + 1.
Proof.
  unfold secsOf, JS.floor. rewrite rem_nonneg by lra. apply floor_spec.
Qed.

Lemma centiseconds_bounds :
  inject_Z c <= (seconds - 1 * inject_Z (Qfloor (seconds / 1))) * 100
  /\ (seconds - 1 * inject_Z (Qfloor (seconds / 1))) * 100 < inject_Z c + 1.
Proof.
  unfold centisecondsOf, JS.floor. rewrite rem_nonneg by lra. apply floor_spec.
Qed.



Lemma field_ranges :
  (0 <= h)%Z /\ (0 <= m < 60)%Z /\ (0 <= s < 60)%Z /\ (0 <= c < 100)%Z.
Proof.
  destruct hours_bounds, mins_bounds, secs_bounds as [S1 S2],
           centiseconds_bounds as [C1 C2].
  destruct (floor_div_bounds seconds 60) as [K1 K2]; [lra|].
  destruct (floor_div_bounds seconds 1) as [L1 L2]; [lra|].
  repeat split.
  - apply Zle_of_inject_succ. change (inject_Z 0) with 0. lra.
  - apply Zle_of_inject_succ. change (inject_Z 0) with 0. lra.
  - apply Zlt_of_inject. change (inject_Z 60) with 60. lra.
  - apply Zle_of_inject_succ. change (inject_Z 0) with 0. lra.
  - apply Zlt_of_inject. change (inject_Z 60) with 60. lra.
  - apply Zle_of_inject_succ. change (inject_Z 0) with 0. lra.
  - apply Zlt_of_inject. change (inject_Z 100) with 100. lra.
Qed.


End Fields.



End TimeFormat.

(* ------------------------------------------------------------------ *)
(** ** Job outcome and workspace *)

Module JobFacts.
Import Job.

Section WithEnv.
Variable env : Env.

(** Downloads leave the world as it is; they succeed when none throws. *)
Lemma downloadAll_cases (l : list (string * string)) (w : World) :
  (downloadAll env l w = (inl tt, w)
   /\ forall url path, In (url, path) l -> downloadFileThrows env url = None)
  \/ (exists message url path,
        downloadAll env l w = (inr message, w)
        /\ In (url, path) l /\ downloadFileThrows env url = Some message).
Proof.
  induction l as [|[url path] rest IH].
  - left. split; [reflexivity | intros ? ? []].
  - cbn [downloadAll]. unfold bind, orThrow.
    destruct (downloadFileThrows env url) as [message|] eqn:D.
    + right. exists message, url, path. cbn. repeat split; auto.
    + cbn. destruct IH as [[E All] | (message & u & p & E & Hin & D')].
      * left. split; [exact E|].
        intros u p [[= <- <-] | Hin]; [exact D | now apply (All u p)].
      * right. exists message, u, p. repeat split; auto.
Qed.

Variables (drawtextFilter jobId : string) (data : Compose.VideoComposeJobData).

#[local] Abbreviation jobDir := (jobDirOf env jobId).

(** The [try] block either returns a successful result after every stage
    went through, or throws because one did not. *)
Lemma composeBody_cases (w : World) :
  (exists r w',
      composeBody env drawtextFilter jobId data w = (inl r, w')
      /\ allStagesSucceed env drawtextFilter jobId data
      /\ success r = true /\ error r = None
      /\ (if storageModeS3 env
          then outputPath r = None
               /\ (exists url,
                     outputUrl r = Some url
                     /\ uploadToS3 env (jobDir ++ "/output.mp4")%string
                                   (jobId ++ ".mp4")%string = inl url)
               /\ ~ In jobDir (dirs w')
          else outputPath r = Some (jobDir ++ "/output.mp4")%string
               /\ outputUrl r = None /\ In jobDir (dirs w')))
  \/ (exists message w',
        composeBody env drawtextFilter jobId data w = (inr message, w')
        /\ ~ allStagesSucceed env drawtextFilter jobId data).
Proof.
  unfold composeBody, allStagesSucceed.
  unfold mkdir, writeFile, execFfmpeg, upload, rm, bind, orThrow, ofResult, ret, throw.
  destruct (mkdirThrows env) as [m|] eqn:Emk; cbn -[downloadAll downloadsOf ffmpegArgs List.remove].
  { right. eexists _, _. split; [reflexivity|]. intros (H & _). discriminate H. }
  destruct (writeFileThrows env) as [m|] eqn:Ewr; cbn -[downloadAll downloadsOf ffmpegArgs List.remove].
  { right. eexists _, _. split; [reflexivity|]. intros (_ & H & _). discriminate H. }
  destruct (getCachedBackgroundVideo env _ _) as [bg|m] eqn:Ebg; cbn -[downloadAll downloadsOf ffmpegArgs List.remove].
  2:{ right. eexists _, _. split; [reflexivity|].
      intros (_ & _ & (bg & H & _) & _). discriminate H. }
  match goal with
  | |- context [downloadAll env ?l ?w0] =>
      destruct (downloadAll_cases l w0) as [[Ed All] | (m & u & pth & Ed & Hin & D)];
      rewrite Ed; cbn -[downloadAll downloadsOf ffmpegArgs List.remove]
  end.
  2:{ right. eexists _, _. split; [reflexivity|].
      intros (_ & _ & _ & H & _). rewrite (H u pth Hin) in D. discriminate D. }
  destruct (ffmpegThrows env _) as [m|] eqn:Eff; cbn -[downloadAll downloadsOf ffmpegArgs List.remove].
  { right. eexists _, _. split; [reflexivity|].
    intros (_ & _ & (bg' & H & F) & _). injection H as <-. rewrite Eff in F. discriminate F. }
  destruct (storageModeS3 env) eqn:Es3; cbn -[downloadAll downloadsOf ffmpegArgs List.remove].
  - destruct (uploadToS3 env _ _) as [url|m] eqn:Eup; cbn -[downloadAll downloadsOf ffmpegArgs List.remove].
    2:{ right. eexists _, _. split; [reflexivity|].
        intros (_ & _ & _ & _ & H). destruct (H eq_refl) as (_ & url & U). discriminate U. }
    destruct (rmThrows env) as [m|] eqn:Erm; cbn -[downloadAll downloadsOf ffmpegArgs List.remove].
    { right. eexists _, _. split; [reflexivity|].
      intros (_ & _ & _ & _ & H). destruct (H eq_refl) as (R & _). discriminate R. }
    left. eexists _, _. split; [reflexivity|]. cbn -[downloadAll downloadsOf ffmpegArgs List.remove].
    split.
    { split; [reflexivity|]. split; [reflexivity|].
      split; [exists bg; split; [reflexivity | exact Eff]|].
      split; [exact All|].
      intros _. split; [reflexivity | now exists url]. }
    split; [reflexivity|]. split; [reflexivity|]. split; [reflexivity|].
    split; [exists url; split; reflexivity|].
    apply remove_In.
  - left. eexists _, _. split; [reflexivity|]. cbn -[downloadAll downloadsOf ffmpegArgs List.remove].
    split.
    { split; [reflexivity|]. split; [reflexivity|].
      split; [exists bg; split; [reflexivity | exact Eff]|].
      split; [exact All|].
      intros H. discriminate H. }
    repeat split; try reflexivity. now left.
Qed.

End WithEnv.

Example s3_job_uploads_and_cleans :
  processVideoCompose s3Env "drawtext=text='x'" "job-1" Compose.imageWatermarkJob emptyWorld
  = (inl {| success := true; outputPath := None;
            outputUrl := Some "https://cdn.example/job-1.mp4"%string; error := None |},
     {| dirs := []; uploaded := ["job-1.mp4"%string] |}).
Proof. vm_compute. reflexivity. Qed.

Example engine_failure_reports_and_cleans :
  processVideoCompose engineFailsEnv "drawtext=text='x'" "job-1" Compose.imageWatermarkJob
                      emptyWorld
  = (inl {| success := false; outputPath := None; outputUrl := None;
            error := Some "Failed to compose video: Command failed: ffmpeg"%string |},
     {| dirs := []; uploaded := [] |}).
Proof. vm_compute. reflexivity. Qed.



End JobFacts.

(* ------------------------------------------------------------------ *)
(** ** Stage order and background fit of the composition graph *)

Module ComposeFacts.
Import Compose NumFacts.

Section Builder.
Variables (drawtextFilter captionsPath : string) (data : VideoComposeJobData).

#[local] Abbreviation fit := (BackgroundFit (fst (resolution data)) (snd (resolution data))
                               (fst (resolution data)) (snd (resolution data))).



End Builder.







End ComposeFacts.

(* ------------------------------------------------------------------ *)
(** ** Crossfade chaining *)

Module MergeFacts.
Import Merge.

Lemma last_nonempty_default {A : Type} (l : list A) (a d d' : A) :
  List.last (a :: l) d = List.last (a :: l) d'.
Proof.
  revert a. induction l as [|b l IH]; intros a; [reflexivity|].
  change (List.last (b :: l) d = List.last (b :: l) d'). apply IH.
Qed.

Lemma last_cons_shift {A : Type} (l : list A) (a d : A) :
  List.last (a :: l) d = List.last l a.
Proof.
  destruct l as [|b l]; [reflexivity|].
  change (List.last (b :: l) d = List.last (b :: l) a). apply last_nonempty_default.
Qed.

Section Chain.
Variable t : Q.

(** The loop over [i = 1 .. n - 1] reads the durations of all clips but
    the last, in order. *)
Lemma xfadeLoop_from (l pre : list Q) (x : Q) (st : XfadeState) :
  let st' := fold_left (xfadeStep (pre ++ l ++ [x]) t)
                       (seq (S (List.length pre)) (List.length l)) st in
  cumulativeOffset st'
  = List.last (runningOffsets t (cumulativeOffset st) l) (cumulativeOffset st)
  /\ map offset (filterParts st')
     = map offset (filterParts st) ++ runningOffsets t (cumulativeOffset st) l.
Proof.
  revert pre st. induction l as [|d rest IH]; intros pre st.
  - cbn. now rewrite app_nil_r.
  - cbn [List.length seq fold_left].
    assert (E : pre ++ (d :: rest) ++ [x] = (pre ++ [d]) ++ rest ++ [x])
      by (now rewrite <- app_assoc).
    assert (L : S (List.length pre) = List.length (pre ++ [d]))
      by (rewrite length_app; simpl; lia).
    assert (N : nth (S (List.length pre) - 1) (pre ++ (d :: rest) ++ [x]) 0 = d).
    { replace (S (List.length pre) - 1)%nat with (List.length pre) by lia.
      rewrite app_nth2 by lia. now rewrite Nat.sub_diag. }
    specialize (IH (pre ++ [d]) (xfadeStep (pre ++ (d :: rest) ++ [x]) t st (S (List.length pre)))).
    rewrite <- E, <- L in IH. cbv zeta in IH. destruct IH as [IHc IHo].
    assert (C : cumulativeOffset (xfadeStep (pre ++ (d :: rest) ++ [x]) t st (S (List.length pre)))
                = cumulativeOffset st + (d - t))
      by (unfold xfadeStep; cbn [cumulativeOffset]; now rewrite N).
    assert (F : map offset (filterParts (xfadeStep (pre ++ (d :: rest) ++ [x]) t st
                                                   (S (List.length pre))))
                = map offset (filterParts st) ++ [cumulativeOffset st + (d - t)])
      by (unfold xfadeStep; cbn [filterParts]; rewrite map_app; cbn [map offset];
          now rewrite N).
    rewrite C in IHc, IHo. rewrite F in IHo.
    cbn [runningOffsets]. split.
    + rewrite IHc. now rewrite last_cons_shift.
    + rewrite IHo. now rewrite <- app_assoc.
Qed.

Lemma xfadeLoop_snoc (l : list Q) (x : Q) :
  cumulativeOffset (xfadeLoop (l ++ [x]) t) = List.last (runningOffsets t 0 l) 0
  /\ xfadeOffsets (l ++ [x]) t = runningOffsets t 0 l.
Proof.
  unfold xfadeOffsets, xfadeLoop. rewrite length_app. cbn [List.length].
  replace (List.length l + 1 - 1)%nat with (List.length l) by lia.
  apply (xfadeLoop_from l [] x xfadeInit).
Qed.






End Chain.





End MergeFacts.

(* ------------------------------------------------------------------ *)
(** ** Proportional overlay scaling *)

Module OverlayFacts.
Import Overlay NumFacts.




End OverlayFacts.

(* ------------------------------------------------------------------ *)
(** ** Highlight directives as the generator writes them *)

Module Highlight.
Import Ass.

(** C1 on the code.  For the phrase of the caption guide the segment
    starts at 4.362 s and its second word at 4.602 s, 240 ms later; the
    directive written for that word carries the offsets 4602 and 4922,
    the absolute times, not 240 and 560. *)
Lemma highlight_offsets_are_absolute :
  let cap := mkWord "cap" (4602 # 1000) (4922 # 1000) in
  segmentWords guidePhrase 3 = [ mkSegment (4362 # 1000) (4922 # 1000) guidePhrase ]
  /\ JS.round ((start cap - (4362 # 1000)) * 1000) = 240%Z
  /\ highlightStartMs cap = 4602%Z
  /\ highlightEndMs cap = 4922%Z
  /\ textWithAnimations "&H00FFFFFF" "&H0000D7FF"
       (mkSegment (4362 # 1000) (4922 # 1000) guidePhrase)
     = ("{\1c&H00FFFFFF&\t(4362,4362,\1c&H0000D7FF&)\t(4562,4562,\1c&H00FFFFFF&)}Full "
        ++ "{\1c&H00FFFFFF&\t(4602,4602,\1c&H0000D7FF&)\t(4922,4922,\1c&H00FFFFFF&)}cap")%string.
Proof. repeat split; reflexivity. Qed.

(** C6 on the code.  For a phrase that starts at 0 s the directive of the
    first word starts in the primary colour [&H00FFFFFF] and schedules the
    change to the highlight colour at offset 0; the first word is written
    with the same template as every other word. *)
Lemma first_word_transition_at_zero :
  let this := mkWord "This" 0 (2 # 10) in
  List.hd_error (segmentWords openingPhrase 3) = Some (mkSegment 0 1 openingPhrase)
  /\ highlightStartMs this = 0%Z
  /\ animationTag "&H00FFFFFF" "&H0000D7FF" this
     = "{\1c&H00FFFFFF&\t(0,0,\1c&H0000D7FF&)\t(200,200,\1c&H00FFFFFF&)}"%string
  /\ (forall primary highlight segment,
        textWithAnimations primary highlight segment
        = JS.join " " (map (fun w => (animationTag primary highlight w ++ word w)%string)
                           (words segment))).
Proof. repeat split; reflexivity. Qed.

End Highlight.

(* ------------------------------------------------------------------ *)
(** ** Strings *)

Module StrFacts.



Lemma length_append (a b : string) :
  String.length (a ++ b) = (String.length a + String.length b)%nat.
Proof. induction a as [|x a IH]; simpl; [reflexivity | now rewrite IH]. Qed.

Lemma length_substring (s : string) (n m : nat) :
  String.length (String.substring n m s) = Nat.min m (String.length s - n).
Proof.
  revert n m. induction s as [|a s IH]; intros n m.
  - destruct n, m; reflexivity.
  - destruct n as [|n].
    + destruct m as [|m]; [reflexivity|]. simpl. rewrite IH.
      now rewrite Nat.sub_0_r.
    + simpl. now rewrite IH.
Qed.

Lemma length_toUpperCase (s : string) :
  String.length (JS.toUpperCase s) = String.length s.
Proof. induction s as [|a s IH]; simpl; [reflexivity | now rewrite IH]. Qed.


End StrFacts.

(* ------------------------------------------------------------------ *)
(** ** More about the subtitle generator *)

Module AssMore.
Import Ass AssFacts NumFacts StrFacts.

Lemma length_concat_nonempty {A : Type} (l : list (list A)) :
  Forall (fun x => x <> []) l -> (List.length l <= List.length (List.concat l))%nat.
Proof.
  induction 1 as [|x l Hx Hl IH]; simpl; [lia|].
  rewrite length_app. destruct x as [|a x]; [now elim Hx | simpl; lia].
Qed.

(** X1.  Whatever the maximum, [segmentWords] cuts the input into
    consecutive non-empty runs: the words of the segments, read in order,
    are the input; every segment starts when its first word starts and
    ends when its last word ends; there are at most as many segments as
    words, none for an empty input and at least one otherwise. *)
Theorem segments_partition_input (timestamps : list WordTimestamp) (maxWordsPerSegment : Z) :
  let segs := segmentWords timestamps maxWordsPerSegment in
  List.concat (map words segs) = timestamps
  /\ Forall segmentShape segs
  /\ (List.length segs <= List.length timestamps)%nat
  /\ (timestamps = [] <-> segs = []).
Proof.
  intros segs.
  pose proof (segmentWords_concat timestamps maxWordsPerSegment) as Hc.
  pose proof (segmentWords_shape timestamps maxWordsPerSegment) as Hs.
  fold segs in Hc, Hs.
  assert (Hne : Forall (fun x => x <> []) (map words segs)).
  { apply Forall_map. eapply Forall_impl; [|exact Hs].
    intros sg (w & ws & E & _). rewrite E. discriminate. }
  split; [exact Hc|]. split; [exact Hs|].
  split.
  - pose proof (length_concat_nonempty _ Hne) as L.
    rewrite Hc, length_map in L. exact L.
  - split.
    + intros ->. reflexivity.
    + intros E. rewrite E in Hc. simpl in Hc. now symmetry.
Qed.

Lemma segGo_singletons (maxW : Z) (l : list WordTimestamp) (s : Q) :
  (maxW <= 1)%Z ->
  segGo maxW [] s l = map (fun w => mkSegment (start w) (end_ w) [w]) l.
Proof.
  intros Hmax. revert s. induction l as [|w rest IH]; intros s; [reflexivity|].
  rewrite segGo_cons.
  assert (F : segmentFull ([] ++ [w]) maxW = true).
  { unfold segmentFull. simpl. rewrite Z.geb_leb. apply Z.leb_le. lia. }
  rewrite F. cbn [orb app List.length Nat.eqb List.last map].
  destruct rest as [|next rest']; now rewrite IH.
Qed.

(** X2.  With a maximum of one word or less (zero and negative numbers
    included, which [segmentWords] itself does not replace by a default)
    every word becomes a segment of its own, spanning exactly that
    word. *)
Theorem segmentWords_max_at_most_one (timestamps : list WordTimestamp)
        (maxWordsPerSegment : Z) :
  (maxWordsPerSegment <= 1)%Z ->
  segmentWords timestamps maxWordsPerSegment
  = map (fun w => mkSegment (start w) (end_ w) [w]) timestamps.
Proof.
  intros H. rewrite segmentWords_segGo. now apply segGo_singletons.
Qed.

Lemma segmentWords_max_at_most_one_witness :
  segmentWords openingPhrase (-2)
  = map (fun w => mkSegment (start w) (end_ w) [w]) openingPhrase.
Proof. apply segmentWords_max_at_most_one. lia. Defined.


(** X4.  [colorToASS] drops the first [#] and writes the channels in
    reverse order behind [&H00]: for [#R1R2G1G2B1B2] followed by anything,
    the result is [&H00] and the upper-case [B1B2G1G2R1R2]; what follows
    the sixth digit is ignored.  Nothing is validated: the result has
    four characters plus as many as the colour has digits, up to six, so
    a colour shorter than six digits gives a shorter, malformed value. *)
Theorem colorToASS_reverses_channels :
  (forall r1 r2 g1 g2 b1 b2 rest,
      colorToASS (String "#" (String r1 (String r2 (String g1 (String g2
                   (String b1 (String b2 rest)))))))
      = ("&H00" ++ JS.toUpperCase (String b1 (String b2 (String g1 (String g2
                      (String r1 (String r2 EmptyString)))))))%string)
  /\ (forall color,
        String.length (colorToASS color)
        = (4 + Nat.min 6 (String.length (JS.removeFirst "#" color)))%nat).
Proof.
  split.
  - intros. unfold colorToASS. cbn [JS.removeFirst Ascii.eqb Bool.eqb].
    destruct rest; reflexivity.
  - intros color. unfold colorToASS.
    set (hex := JS.removeFirst "#" color).
    rewrite length_toUpperCase, !length_append. unfold JS.substring.
    rewrite !length_substring. cbn [String.length]. lia.
Qed.



Lemma showInt_one_digit (h : Z) :
  (0 <= h < 10)%Z -> String.length (JS.showInt h) = 1%nat.
Proof.
  intros H.
  assert (C : (h = 0 \/ h = 1 \/ h = 2 \/ h = 3 \/ h = 4 \/ h = 5 \/ h = 6
               \/ h = 7 \/ h = 8 \/ h = 9)%Z) by lia.
  repeat (destruct C as [-> | C]; [reflexivity|]). subst h. reflexivity.
Qed.

(** X6.  For times from 0 up to, but not including, ten hours
    [formatASSTime] writes exactly ten characters: one hour digit and the
    three two-digit fields with their separators. *)
Theorem formatASSTime_ten_characters (seconds : Q) :
  0 <= seconds -> seconds < 36000 ->
  String.length (formatASSTime seconds) = 10%nat.
Proof.
  intros H0 H1.
  destruct (TimeFormat.field_ranges seconds H0) as (Rh & Rm & Rs & Rc).
  destruct (TimeFormat.hours_bounds seconds) as [Hb _].
  assert (Hh : (hoursOf seconds < 10)%Z)
    by (apply Zlt_of_inject; change (inject_Z 10) with 10; lra).
  unfold formatASSTime. rewrite !length_append.
  rewrite (showInt_one_digit (hoursOf seconds)) by lia.
  destruct (TimeFormat.two_digits (minsOf seconds)) as [-> _]; [lia|].
  destruct (TimeFormat.two_digits (secsOf seconds)) as [-> _]; [lia|].
  destruct (TimeFormat.two_digits (centisecondsOf seconds)) as [-> _]; [lia|].
  reflexivity.
Qed.

Lemma formatASSTime_ten_characters_witness :
  String.length (formatASSTime (3725 + (999 # 1000))) = 10%nat.
Proof.
  apply formatASSTime_ten_characters; unfold Qle, Qlt; simpl; lia.
Defined.



End AssMore.

(* ------------------------------------------------------------------ *)
(** ** The text watermark: colours, escaping, fonts *)

Module DrawtextFacts.
Import Drawtext NumFacts StrFacts.

Lemma includes_app (c : ascii) (a b : string) :
  Text.includes c (a ++ b) = Text.includes c a || Text.includes c b.
Proof.
  induction a as [|x a IH]; simpl; [reflexivity|].
  rewrite IH. now rewrite orb_assoc.
Qed.


Lemma split_nonempty (c : ascii) (s : string) : Text.split c s <> [].
Proof.
  induction s as [|a s IH]; simpl; [discriminate|].
  destruct (Ascii.eqb a c); [discriminate|].
  destruct (Text.split c s); discriminate.
Qed.

Lemma split_free (c : ascii) (s : string) :
  Text.includes c s = false -> Text.split c s = [s].
Proof.
  induction s as [|a s IH]; simpl; [reflexivity|].
  intros H. apply orb_false_iff in H. destruct H as [H1 H2].
  rewrite H1. now rewrite IH.
Qed.

Lemma split_at_first (c : ascii) (a rest : string) :
  Text.includes c a = false ->
  Text.split c (a ++ String c rest) = a :: Text.split c rest.
Proof.
  induction a as [|x a IH]; simpl.
  - intros _. now rewrite Ascii.eqb_refl.
  - intros H. apply orb_false_iff in H. destruct H as [H1 H2].
    rewrite H1. now rewrite IH.
Qed.

Lemma join_split (c sep : ascii) (s : string) :
  JS.join (String sep EmptyString) (Text.split c s)
  = Text.replaceAll c (String sep EmptyString) s.
Proof.
  induction s as [|a s IH]; [reflexivity|].
  cbn [Text.split Text.replaceAll].
  destruct (Ascii.eqb a c).
  - destruct (Text.split c s) as [|p ps] eqn:E; [now elim (split_nonempty c s)|].
    rewrite <- IH. reflexivity.
  - destruct (Text.split c s) as [|p ps] eqn:E; [now elim (split_nonempty c s)|].
    rewrite <- IH. destruct ps; reflexivity.
Qed.






(** X10.  How the font is read from [watermarkFontFamily].  A name without
    a dash is ignored and Liberation Sans Bold is used.  Of [a-b-c], with
    no dash in [a] and [b], the family is [a b] and the style is [c] with
    its dashes turned into spaces; of [a-b] the family is [a] with a space
    before each capital, trimmed, and the style is [b]. *)
Theorem fontOf_cases :
  (forall name, Text.includes "-" name = false ->
                fontOf name = ("Liberation Sans", "Bold")%string)
  /\ (forall a b c, Text.includes "-" a = false -> Text.includes "-" b = false ->
        fontOf (a ++ "-" ++ b ++ "-" ++ c)
        = ((a ++ " " ++ b)%string, Text.replaceAll "-" " " c))
  /\ (forall a b, Text.includes "-" a = false -> Text.includes "-" b = false ->
        fontOf (a ++ "-" ++ b)
        = (Text.trim (Text.spaceBeforeCapitals a), b)).
Proof.
  split; [|split].
  - intros name H. unfold fontOf. now rewrite H.
  - intros a b c Ha Hb. unfold fontOf.
    rewrite includes_app. cbn [append Text.includes Ascii.eqb Bool.eqb orb].
    rewrite orb_true_r.
    rewrite (split_at_first "-" a _ Ha), (split_at_first "-" b _ Hb).
    destruct (Text.split "-" c) as [|p ps] eqn:E; [now elim (split_nonempty "-" c)|].
    cbn [List.length Nat.leb nth skipn]. rewrite <- E. now rewrite join_split.
  - intros a b Ha Hb. unfold fontOf.
    rewrite includes_app. cbn [append Text.includes Ascii.eqb Bool.eqb orb].
    rewrite orb_true_r.
    rewrite (split_at_first "-" a _ Ha), (split_free "-" b Hb).
    reflexivity.
Qed.

End DrawtextFacts.

(* ------------------------------------------------------------------ *)
(** ** The background cache *)

Module CacheFacts.
Import Sys.


Section WithEnv.
Variable env : Env.

(** X11.  A cached background is returned without touching anything: when
    the cache file of the identifier exists, [getCachedBackgroundVideo]
    returns its path, fetches nothing and changes nothing, whatever URL it
    is given. *)
Theorem cache_hit (backgroundId backgroundUrl : string) (st : State) :
  existsIn (cachedPathOf backgroundId) st = true ->
  getCachedBackgroundVideo env backgroundId backgroundUrl st
  = (inl (cachedPathOf backgroundId), st).
Proof.
  intros H. unfold getCachedBackgroundVideo, bind, existsSync, ret. now rewrite H.
Qed.




End WithEnv.

Lemma cache_hit_witness :
  getCachedBackgroundVideo quietEnv "minecraft" "https://cdn.example/other.mp4"
                           (stateWith [cachedPathOf "minecraft"])
  = (inl (cachedPathOf "minecraft"), stateWith [cachedPathOf "minecraft"]).
Proof. apply cache_hit. reflexivity. Defined.



End CacheFacts.

(* ------------------------------------------------------------------ *)
(** ** Conversion to MP4 *)

Module ConvertFacts.
Import Sys Convert.

Section WithEnv.
Variable env : Env.

(** The probing leaves files and storage alone, logs only probes, and
    answers what the two codecs allow. *)
Lemma shouldCopyStreams_spec (path : string) (st : State) :
  exists probes,
    shouldCopyStreams env path st
    = (inl (codecsAllowCopy env path),
       {| files := files st; fetched := fetched st;
          commands := commands st ++ probes; objects := objects st |})
    /\ forallb isProbe probes = true.
Proof.
  unfold shouldCopyStreams, codecsAllowCopy, tryCatch, bind, execFfprobe, bind, ofResult,
    ret, throw.
  cbn -[codecProbeArgs Text.trim String.eqb].
  destruct (ffprobe env (codecProbeArgs "v:0" path)) as [v|m];
    cbn -[codecProbeArgs Text.trim String.eqb].
  - destruct (ffprobe env (codecProbeArgs "a:0" path)) as [a|m];
      cbn -[codecProbeArgs Text.trim String.eqb].
    + exists [("ffprobe"%string :: codecProbeArgs "v:0" path);
              ("ffprobe"%string :: codecProbeArgs "a:0" path)].
      split; [|reflexivity]. now rewrite <- app_assoc.
    + exists [("ffprobe"%string :: codecProbeArgs "v:0" path);
              ("ffprobe"%string :: codecProbeArgs "a:0" path)].
      split; [|reflexivity]. now rewrite <- app_assoc.
  - exists [("ffprobe"%string :: codecProbeArgs "v:0" path)].
    split; reflexivity.
Qed.

(** X14.  A conversion whose input file does not exist does nothing: it
    returns a failure that names the missing file and creates no
    directory, runs no command and uploads nothing. *)
Theorem toMp4_missing_input (data : VideoToMp4JobData) (st : State) :
  existsIn (inputPath data) st = false ->
  processVideoToMp4 env data st
  = (inl {| Job.success := false; Job.outputPath := None; Job.outputUrl := None;
            Job.error := Some ("Input file does not exist: " ++ inputPath data)%string |},
     st).
Proof.
  intros H. unfold processVideoToMp4, bind, existsSync, ret. now rewrite H.
Qed.

(** X15.  When the input exists and the output directory can be made, the
    job runs exactly one [ffmpeg] command, after nothing but probes: the
    stream copy when [smartCopy] is set and both probes answer [h264] and
    [aac] (white space around the answers aside), the re-encoding with the
    requested preset and quality otherwise, a failed probe included.
    Without [smartCopy] no probe is run at all.  The job always returns a
    result. *)
Theorem toMp4_command (data : VideoToMp4JobData) (st : State) :
  existsIn (inputPath data) st = true ->
  mkdirThrows env = None ->
  exists r st' probes,
    processVideoToMp4 env data st = (inl r, st')
    /\ commands st' = commands st ++ probes ++ [conversionCommand env data]
    /\ forallb isProbe probes = true
    /\ (smartCopy data = false -> probes = []).
Proof.
  intros Hin Hmk.
  unfold processVideoToMp4, bind at 1, existsSync. rewrite Hin. cbn [negb].
  unfold conversionCommand, conversionArgs, tryCatch, bind, mkdir, bind, orThrow, addFile,
    ret, throw.
  rewrite Hmk. cbn beta iota.
  set (st1 := {| files := dirname env (outputPath data) :: files st;
                 fetched := fetched st; commands := commands st;
                 objects := objects st |}).
  assert (Copy : exists probes,
             (if smartCopy data then shouldCopyStreams env (inputPath data)
              else fun st0 => (inl false, st0)) st1
             = (inl (smartCopy data && codecsAllowCopy env (inputPath data)),
                {| files := files st1; fetched := fetched st1;
                   commands := commands st ++ probes; objects := objects st1 |})
             /\ forallb isProbe probes = true
             /\ (smartCopy data = false -> probes = [])).
  { destruct (smartCopy data).
    - destruct (shouldCopyStreams_spec (inputPath data) st1) as (probes & E & P).
      exists probes. split; [exact E|]. split; [exact P | discriminate].
    - exists []. cbn. rewrite app_nil_r. repeat split. }
  destruct Copy as (probes & E & P & Off). rewrite E. clear E.
  set (cmd := if smartCopy data && codecsAllowCopy env (inputPath data)
              then copyArgs data else encodeArgs data).
  destruct (smartCopy data && codecsAllowCopy env (inputPath data)) eqn:C; subst cmd;
    unfold execFfmpeg, upload, rmFile, bind, orThrow, ofResult, addFile, ret, throw;
    cbn -[copyArgs encodeArgs List.remove].
  - destruct (ffmpegThrows env (copyArgs data));
      cbn -[copyArgs encodeArgs List.remove].
    + eexists _, _, probes. split; [reflexivity|]. cbn. rewrite <- app_assoc. auto.
    + destruct (storageModeS3 env); cbn -[copyArgs encodeArgs List.remove].
      * destruct (uploadToS3 env _ _ _); cbn -[copyArgs encodeArgs List.remove].
        -- destruct (rmThrows env); cbn -[copyArgs encodeArgs List.remove];
             eexists _, _, probes; (split; [reflexivity|]); cbn;
             rewrite <- app_assoc; auto.
        -- eexists _, _, probes. split; [reflexivity|]. cbn. rewrite <- app_assoc. auto.
      * eexists _, _, probes. split; [reflexivity|]. cbn. rewrite <- app_assoc. auto.
  - destruct (ffmpegThrows env (encodeArgs data));
      cbn -[copyArgs encodeArgs List.remove].
    + eexists _, _, probes. split; [reflexivity|]. cbn. rewrite <- app_assoc. auto.
    + destruct (storageModeS3 env); cbn -[copyArgs encodeArgs List.remove].
      * destruct (uploadToS3 env _ _ _); cbn -[copyArgs encodeArgs List.remove].
        -- destruct (rmThrows env); cbn -[copyArgs encodeArgs List.remove];
             eexists _, _, probes; (split; [reflexivity|]); cbn;
             rewrite <- app_assoc; auto.
        -- eexists _, _, probes. split; [reflexivity|]. cbn. rewrite <- app_assoc. auto.
      * eexists _, _, probes. split; [reflexivity|]. cbn. rewrite <- app_assoc. auto.
Qed.

Lemma existsb_remove (x : string) (l : list string) :
  existsb (String.eqb x) (List.remove string_dec x l) = false.
Proof.
  induction l as [|a l IH]; [reflexivity|].
  simpl. destruct (string_dec x a) as [E|N]; [exact IH|].
  simpl. rewrite IH. apply String.eqb_neq in N. now rewrite N.
Qed.

(** X16.  What becomes of the converted file.  When the input exists, the
    output directory can be made and the conversion command succeeds:
    with local storage the job returns the output path and uploads
    nothing; with object storage it uploads under the base name of the
    output and then removes the local file, returning the URL; and when
    that upload throws, the job reports the failure and the converted file
    stays on disk, because the [catch] block removes nothing. *)
Theorem toMp4_storage (data : VideoToMp4JobData) (st : State) :
  existsIn (inputPath data) st = true ->
  mkdirThrows env = None ->
  ffmpegThrows env (conversionArgs env data) = None ->
  exists r st',
    processVideoToMp4 env data st = (inl r, st')
    /\ (storageModeS3 env = false ->
        r = {| Job.success := true; Job.outputPath := Some (outputPath data);
               Job.outputUrl := None; Job.error := None |}
        /\ existsIn (outputPath data) st' = true
        /\ objects st' = objects st)
    /\ (storageModeS3 env = true ->
        match uploadToS3 env (outputPath data) "video/mp4"
                         (basename env (outputPath data)) with
        | inl url =>
            objects st' = objects st ++ [basename env (outputPath data)]
            /\ (rmThrows env = None ->
                r = {| Job.success := true; Job.outputPath := None;
                       Job.outputUrl := Some url; Job.error := None |}
                /\ existsIn (outputPath data) st' = false)
        | inr message =>
            r = {| Job.success := false; Job.outputPath := None; Job.outputUrl := None;
                   Job.error := Some ("Failed to convert video to MP4: " ++ message)%string |}
            /\ existsIn (outputPath data) st' = true
            /\ objects st' = objects st
        end).
Proof.
  intros Hin Hmk Hff.
  unfold processVideoToMp4, bind at 1, existsSync. rewrite Hin. cbn [negb].
  unfold conversionArgs in Hff.
  unfold tryCatch, bind, mkdir, bind, orThrow, addFile, ret, throw.
  rewrite Hmk. cbn beta iota.
  set (st1 := {| files := dirname env (outputPath data) :: files st;
                 fetched := fetched st; commands := commands st;
                 objects := objects st |}).
  assert (Copy : exists probes,
             (if smartCopy data then shouldCopyStreams env (inputPath data)
              else fun st0 => (inl false, st0)) st1
             = (inl (smartCopy data && codecsAllowCopy env (inputPath data)),
                {| files := files st1; fetched := fetched st1;
                   commands := commands st ++ probes; objects := objects st1 |})).
  { destruct (smartCopy data).
    - destruct (shouldCopyStreams_spec (inputPath data) st1) as (probes & E & P).
      exists probes. exact E.
    - exists []. cbn. now rewrite app_nil_r. }
  destruct Copy as (probes & E). rewrite E. clear E.
  destruct (smartCopy data && codecsAllowCopy env (inputPath data));
    unfold execFfmpeg, upload, rmFile, bind, orThrow, ofResult, addFile, ret, throw;
    cbn -[copyArgs encodeArgs List.remove existsIn]; rewrite Hff;
    cbn -[copyArgs encodeArgs List.remove existsIn].
  all: destruct (storageModeS3 env); cbn -[copyArgs encodeArgs List.remove existsIn].
  all: try (eexists _, _; split; [reflexivity|]; split; [|discriminate];
            intros _; split; [reflexivity|]; split; [|reflexivity];
            unfold existsIn; cbn; now rewrite String.eqb_refl).
  all: destruct (uploadToS3 env _ _ _) as [url|m];
    cbn -[copyArgs encodeArgs List.remove existsIn].
  all: try (eexists _, _; split; [reflexivity|]; split; [discriminate|];
            intros _; split; [reflexivity|]; split; [|reflexivity];
            unfold existsIn; cbn; now rewrite String.eqb_refl).
  all: destruct (rmThrows env) as [m|] eqn:Erm;
    cbn -[copyArgs encodeArgs List.remove existsIn];
    eexists _, _; (split; [reflexivity|]); (split; [discriminate|]);
    intros _; (split; [reflexivity|]); intros R; try discriminate R;
    split; [reflexivity|]; unfold existsIn; cbn -[List.remove]; apply existsb_remove.
Qed.

End WithEnv.

Lemma toMp4_storage_witness :
  exists r st',
    processVideoToMp4 quietEnv sampleConversion (stateWith ["/in/a.mov"%string])
    = (inl r, st')
    /\ Job.success r = true /\ objects st' = [].
Proof.
  destruct (toMp4_storage quietEnv sampleConversion (stateWith ["/in/a.mov"%string]))
    as (r & st' & E & Local & _); [reflexivity | reflexivity | reflexivity |].
  exists r, st'. split; [exact E|].
  destruct (Local eq_refl) as (-> & _ & O). split; [reflexivity | exact O].
Defined.

Lemma toMp4_command_witness :
  exists r st' probes,
    processVideoToMp4 quietEnv sampleConversion (stateWith ["/in/a.mov"%string])
    = (inl r, st')
    /\ commands st' = probes ++ [conversionCommand quietEnv sampleConversion]
    /\ forallb isProbe probes = true
    /\ (smartCopy sampleConversion = false -> probes = []).
Proof.
  apply (toMp4_command quietEnv sampleConversion (stateWith ["/in/a.mov"%string]));
    reflexivity.
Defined.

Lemma toMp4_missing_input_witness :
  processVideoToMp4 quietEnv sampleConversion emptyState
  = (inl {| Job.success := false; Job.outputPath := None; Job.outputUrl := None;
            Job.error := Some "Input file does not exist: /in/a.mov"%string |},
     emptyState).
Proof.
  apply (toMp4_missing_input quietEnv sampleConversion emptyState). reflexivity.
Defined.

End ConvertFacts.

(* ------------------------------------------------------------------ *)
(** ** The overlay endpoint *)

Module OverlayJobFacts.
Import Sys OverlayPos OverlayJob.


Section WithEnv.
Variable env : Env.
Variable probeSize : string -> (Z * Z) + string.
Variables (jobId : string) (data : VideoOverlayJobData) (st : State).

#[local] Abbreviation jobDir := (jobDirOf env jobId).
#[local] Abbreviation videoPath := (jobDirOf env jobId ++ "/input.mp4")%string.

(** The state once the workspace exists and the video has arrived. *)
#[local] Abbreviation downloaded :=
  {| files := videoPath :: dirname env videoPath :: jobDir :: files st;
     fetched := fetched st ++ [videoUrl data];
     commands := commands st; objects := objects st |}.

(** X18.  The two refusals of the overlay job are returned from inside the
    [try] block and skip the clean-up.  With the workspace made and the
    video downloaded: when the named bundled overlay does not exist, or
    when the request gives neither a bundled overlay nor a URL, the job
    reports the failure, has run no command and fetched nothing but the
    video, and leaves the workspace with the downloaded video on disk.  A
    named bundled overlay takes priority: the overlay URL is not
    fetched. *)
Theorem overlay_refusals_keep_workspace :
  mkdirThrows env = None ->
  fetch env (videoUrl data) = Complete ->
  (JS.truthy (overlayAsset data) = true ->
   existsb (String.eqb (assetPathOf env (valueOf (overlayAsset data))))
           (files downloaded) = false ->
   processVideoOverlay env probeSize jobId data st
   = (inl (failure ("Overlay asset not found: " ++ valueOf (overlayAsset data)
                    ++ " (looked in " ++ OVERLAYS_DIR env ++ ")")%string),
      downloaded))
  /\ (JS.truthy (overlayAsset data) = false -> JS.truthy (overlayUrl data) = false ->
      processVideoOverlay env probeSize jobId data st
      = (inl (failure "Either overlayAsset or overlayUrl must be provided"), downloaded))
  /\ existsIn jobDir downloaded = true
  /\ existsIn videoPath downloaded = true.
Proof.
  intros Hmk Hfetch.
  assert (Prefix : forall k : M Job.JobResult,
             (mkdir env jobDir ;; downloadFile env (videoUrl data) videoPath ;; k) st
             = k downloaded).
  { intros k. unfold downloadFile. unfold mkdir, bind, orThrow, addFile, ret, throw.
    rewrite Hmk, Hfetch. reflexivity. }
  split; [|split; [|split]].
  - intros Hasset Hmissing. unfold processVideoOverlay, tryCatch.
    rewrite Prefix. unfold resolveOverlay. rewrite Hasset.
    unfold bind, existsSync, existsIn, ret. rewrite Hmissing. reflexivity.
  - intros Hasset Hurl. unfold processVideoOverlay, tryCatch.
    rewrite Prefix. unfold resolveOverlay. rewrite Hasset, Hurl.
    unfold bind, ret. reflexivity.
  - unfold existsIn. cbn [files existsb]. rewrite String.eqb_refl.
    now rewrite !orb_true_r.
  - unfold existsIn. cbn [files existsb]. now rewrite String.eqb_refl.
Qed.

Lemma removed_tree_gone (dir : string) (paths : list string) :
  existsb (String.eqb dir)
          (filter (fun p => negb (String.eqb p dir || String.prefix (dir ++ "/") p)) paths)
  = false.
Proof.
  induction paths as [|a l IH]; [reflexivity|].
  cbn [filter]. destruct (String.eqb a dir) eqn:E; cbn [orb negb]; [exact IH|].
  destruct (String.prefix (dir ++ "/") a); cbn [negb]; [exact IH|].
  cbn [existsb]. rewrite IH, String.eqb_sym, E. reflexivity.
Qed.

(** A sequence that returns has run both of its parts. *)
Lemma bind_inl {A B : Type} (m : M A) (k : A -> M B) (s0 s2 : State) (b : B) :
  bind m k s0 = (inl b, s2) ->
  exists a s1, m s0 = (inl a, s1) /\ k a s1 = (inl b, s2).
Proof.
  unfold bind. destruct (m s0) as [[a|message] s1]; [|discriminate].
  intros H. now exists a, s1.
Qed.

(** The overlay step returns a result only to refuse the request. *)
Lemma resolveOverlay_returns (overlayPath : string) (result : Job.JobResult)
      (s0 s1 : State) :
  resolveOverlay env data overlayPath s0 = (inl (Some result), s1) ->
  result = failure ("Overlay asset not found: " ++ valueOf (overlayAsset data)
                    ++ " (looked in " ++ OVERLAYS_DIR env ++ ")")%string
  \/ result = failure "Either overlayAsset or overlayUrl must be provided".
Proof.
  unfold resolveOverlay. destruct (JS.truthy (overlayAsset data)).
  - intros H. apply bind_inl in H as (present & s & _ & H).
    destruct (negb present).
    + unfold ret in H. injection H as <- _. now left.
    + apply bind_inl in H as (u & s' & _ & H). discriminate H.
  - destruct (JS.truthy (overlayUrl data)).
    + intros H. apply bind_inl in H as (u & s' & _ & H). discriminate H.
    + unfold ret. intros H. injection H as <- _. now right.
Qed.

(** Steps 3 to 5 return only a success, after which, with object storage,
    the workspace is gone. *)
Lemma overlayRender_returns (r : Job.JobResult) (s0 s2 : State) :
  overlayRender env probeSize jobId data s0 = (inl r, s2) ->
  Job.success r = true /\ Job.error r = None
  /\ (storageModeS3 env = true -> existsIn jobDir s2 = false).
Proof.
  unfold overlayRender. cbv zeta. intros H.
  apply bind_inl in H as (video & s & _ & H).
  apply bind_inl in H as (ovl & s' & _ & H).
  apply bind_inl in H as (u & s'' & _ & H).
  destruct (storageModeS3 env).
  - apply bind_inl in H as (url & s3 & _ & H).
    apply bind_inl in H as (u' & s4 & Hrm & H).
    unfold ret in H. injection H as <- <-. cbn [Job.success Job.error].
    split; [reflexivity|]. split; [reflexivity|]. intros _.
    unfold rmTree in Hrm. apply bind_inl in Hrm as (u'' & s5 & _ & Hrm).
    injection Hrm as _ <-. unfold existsIn. cbn [files]. apply removed_tree_gone.
  - unfold ret in H. injection H as <- <-. cbn [Job.success Job.error].
    split; [reflexivity|]. split; [reflexivity | discriminate].
Qed.

(** What the [try] block can return: one of the two refusals, or a
    success, after which, with object storage, the workspace is gone. *)
Lemma overlay_body_returns (r : Job.JobResult) (st2 : State) :
  (mkdir env jobDir ;;
   downloadFile env (videoUrl data) videoPath ;;
   returned <- resolveOverlay env data (jobDir ++ "/overlay.png")%string ;;
   match returned with
   | Some result => ret result
   | None => overlayRender env probeSize jobId data
   end) st = (inl r, st2) ->
  (Job.success r = false
   /\ (Job.error r
       = Some ("Overlay asset not found: " ++ valueOf (overlayAsset data)
               ++ " (looked in " ++ OVERLAYS_DIR env ++ ")")%string
       \/ Job.error r = Some "Either overlayAsset or overlayUrl must be provided"%string))
  \/ (Job.success r = true /\ Job.error r = None
      /\ (storageModeS3 env = true -> existsIn jobDir st2 = false)).
Proof.
  intros H.
  apply bind_inl in H as (u & s0 & _ & H).
  apply bind_inl in H as (u' & s1 & _ & H).
  apply bind_inl in H as (returned & s2 & Hres & H).
  destruct returned as [result|].
  - unfold ret in H. injection H as <- _. left.
    destruct (resolveOverlay_returns _ _ _ _ Hres) as [-> | ->];
      (split; [reflexivity|]); [left | right]; reflexivity.
  - right. exact (overlayRender_returns _ _ _ H).
Qed.

(** X19.  Apart from the two refusals, the overlay job does not leave its
    workspace behind when it fails: if removing the workspace does not
    throw, then after every thrown error (a failed download, probe, copy,
    engine run or upload) the job reports [Failed to overlay video: ...]
    and the workspace is gone, and so it is after a success with object
    storage.  The job always returns a result. *)
Theorem overlay_job_cleans_up :
  rmThrows env = None ->
  exists r st',
    processVideoOverlay env probeSize jobId data st = (inl r, st')
    /\ (Job.success r = false ->
        existsIn jobDir st' = false
        \/ Job.error r
           = Some ("Overlay asset not found: " ++ valueOf (overlayAsset data)
                   ++ " (looked in " ++ OVERLAYS_DIR env ++ ")")%string
        \/ Job.error r = Some "Either overlayAsset or overlayUrl must be provided"%string)
    /\ (Job.success r = true -> storageModeS3 env = true -> existsIn jobDir st' = false)
    /\ (forall message,
          Job.error r = Some ("Failed to overlay video: " ++ message)%string ->
          existsIn jobDir st' = false).
Proof.
  intros Hrm. unfold processVideoOverlay, tryCatch at 1.
  match goal with
  | |- context [match ?body st with _ => _ end] => destruct (body st) as [[r|m] st2] eqn:E
  end.
  - exists r, st2. split; [reflexivity|].
    destruct (overlay_body_returns r st2 E) as [[F Refusal] | (S & NoError & Gone)].
    + split; [intros _; right; exact Refusal|].
      split; [intros T; rewrite F in T; discriminate T|].
      intros message Em. destruct Refusal as [R | R]; rewrite R in Em;
        injection Em as Em; discriminate Em.
    + split; [intros F; rewrite S in F; discriminate F|].
      split; [intros _; exact Gone|].
      intros message Em. rewrite NoError in Em. discriminate Em.
  - unfold bind, tryCatch, rmTree, bind, orThrow, ret, throw. rewrite Hrm.
    cbn beta iota.
    eexists _, _. split; [reflexivity|]. cbn [Job.success Job.error failure].
    assert (Gone : existsIn jobDir
                     {| files := filter (fun p => negb (String.eqb p jobDir
                                                        || String.prefix (jobDir ++ "/") p))
                                        (files st2);
                        fetched := fetched st2; commands := commands st2;
                        objects := objects st2 |} = false)
      by (unfold existsIn; cbn [files]; apply removed_tree_gone).
    split; [intros _; left; exact Gone|].
    split; [discriminate|]. intros message _. exact Gone.
Qed.

End WithEnv.

Lemma overlay_job_cleans_up_witness :
  exists r st',
    processVideoOverlay brokenStreamEnv (fun _ => inl (1280%Z, 720%Z)) "job-7"
                        assetRequest emptyState = (inl r, st')
    /\ Job.error r = Some "Failed to overlay video: aborted"%string
    /\ existsIn (jobDirOf brokenStreamEnv "job-7") st' = false.
Proof.
  destruct (overlay_job_cleans_up brokenStreamEnv (fun _ => inl (1280%Z, 720%Z)) "job-7"
              assetRequest emptyState eq_refl) as (r & st' & E & _ & _ & Gone).
  exists r, st'. split; [exact E|].
  assert (Er : Job.error r = Some "Failed to overlay video: aborted"%string).
  { vm_compute in E. injection E as <- _. reflexivity. }
  split; [exact Er | exact (Gone _ Er)].
Defined.

Lemma overlay_refusals_keep_workspace_witness :
  exists st',
    processVideoOverlay quietEnv (fun _ => inl (1280%Z, 720%Z)) "job-7" emptyRequest
                        emptyState
    = (inl (failure "Either overlayAsset or overlayUrl must be provided"), st')
    /\ existsIn (jobDirOf quietEnv "job-7") st' = true.
Proof.
  destruct (overlay_refusals_keep_workspace quietEnv (fun _ => inl (1280%Z, 720%Z))
              "job-7" emptyRequest emptyState eq_refl eq_refl)
    as (_ & None_ & Dir & _).
  eexists. split; [apply None_; reflexivity | exact Dir].
Defined.

End OverlayJobFacts.

(* ------------------------------------------------------------------ *)
(** ** The compose endpoint *)

Module RouteFacts.
Import Job Route.

Section Handler.
Variables (env : Env) (q : Queue) (drawtextFilter : string)
          (body : Compose.VideoComposeJobData) (w : World).



End Handler.

End RouteFacts.

(* ------------------------------------------------------------------ *)
(** ** The [xfade] chain of a merge *)

Module MergeChainFacts.
Import Merge MergeChain.

Section Chain.
Variable t : Q.

Lemma runningOffsets_sorted (l : list Q) (acc : Q) :
  Forall (fun d => t <= d) l ->
  StronglySorted Qle (runningOffsets t acc l)
  /\ Forall (fun o => acc <= o) (runningOffsets t acc l).
Proof.
  revert acc. induction l as [|d rest IH]; intros acc H.
  - split; constructor.
  - inversion H as [|? ? Hd Hrest]; subst.
    destruct (IH (acc + (d - t)) Hrest) as [S F].
    assert (Step : acc <= acc + (d - t)) by lra.
    cbn [runningOffsets]. split.
    + constructor; [exact S | exact F].
    + constructor; [exact Step|].
      eapply Forall_impl; [|exact F]. intros o Ho. cbv beta in Ho.
      eapply Qle_trans; [exact Step | exact Ho].
Qed.

Variable durations : list Q.

#[local] Abbreviation n := (List.length durations).

(** The state of the loop after [m] turns. *)
Lemma chain_prefix (m : nat) :
  (m <= n - 1)%nat ->
  let st := fold_left (xfadeStep durations t) (seq 1 m) xfadeInit in
  List.length (filterParts st) = m
  /\ lastVideoLabel st = labelAfter n m
  /\ forall k f, nth_error (filterParts st) k = Some f ->
                 text f = xfadeText n t (S k) (offset f).
Proof.
  induction m as [|m IH]; intros Hm.
  - cbn. split; [reflexivity|]. split; [reflexivity|].
    intros k f H. destruct k; discriminate H.
  - rewrite seq_S, fold_left_app. cbn [fold_left Nat.add]. cbv zeta.
    destruct (IH ltac:(lia)) as (L & Lab & Txt). cbv zeta in L, Lab, Txt.
    set (st := fold_left (xfadeStep durations t) (seq 1 m) xfadeInit) in *.
    unfold xfadeStep at 1 2 3. cbn [filterParts lastVideoLabel].
    split; [rewrite length_app, L; cbn; lia|].
    split; [unfold labelAfter; reflexivity|].
    intros k f H.
    destruct (Nat.lt_ge_cases k m) as [Lt | Ge].
    + rewrite nth_error_app1 in H by lia. now apply Txt.
    + rewrite nth_error_app2 in H by lia. rewrite L in H.
      destruct (k - m)%nat as [|j] eqn:E; [|destruct j; discriminate H].
      assert (k = m) by lia. subst k.
      cbn [nth_error] in H. injection H as <-. cbn [text offset].
      unfold xfadeText. rewrite Lab.
      replace (S m - 1)%nat with m by lia.
      unfold labelAfter at 3. reflexivity.
Qed.

End Chain.

(** X21.  When no clip but the last is shorter than the transition, the
    offsets written into the [xfade] chain never go back in time: they
    are in non-decreasing order and none is negative. *)
Theorem xfade_offsets_nondecreasing (durations : list Q) (transitionDuration : Q) :
  Forall (fun d => transitionDuration <= d) (removelast durations) ->
  StronglySorted Qle (xfadeOffsets durations transitionDuration)
  /\ Forall (fun o => 0 <= o) (xfadeOffsets durations transitionDuration).
Proof.
  intros H. destruct durations as [|d0 ds].
  - split; constructor.
  - destruct (@exists_last Q (d0 :: ds)) as (l & x & E); [discriminate|].
    rewrite E in *. rewrite removelast_last in H.
    destruct (MergeFacts.xfadeLoop_snoc transitionDuration l x) as [_ ->].
    now apply runningOffsets_sorted.
Qed.

Lemma xfade_offsets_nondecreasing_witness :
  StronglySorted Qle (xfadeOffsets [5; 3; 4] (1 # 2))
  /\ Forall (fun o => 0 <= o) (xfadeOffsets [5; 3; 4] (1 # 2)).
Proof.
  apply (xfade_offsets_nondecreasing [5; 3; 4] (1 # 2)).
  cbn [removelast]. repeat constructor; discriminate.
Defined.

(** X22.  The [xfade] filters form one connected chain.  For [n] clips the
    loop writes [n - 1] filters; the filter that joins clip [i] reads the
    label the filter before it wrote ([v0] for the first) and writes
    [xv<i>], except the last, which writes [vout].  So the label the
    engine is told to map, [vout], is written exactly when there are at
    least two clips: with fewer there is no filter and the chain still
    ends in [v0]. *)
Theorem xfade_chain_connected (durations : list Q) (transitionDuration : Q) :
  let n := List.length durations in
  let st := xfadeLoop durations transitionDuration in
  List.length (filterParts st) = (n - 1)%nat
  /\ (forall k f, nth_error (filterParts st) k = Some f ->
        text f = xfadeText n transitionDuration (S k) (offset f))
  /\ lastVideoLabel st = labelAfter n (n - 1)
  /\ ((2 <= n)%nat -> lastVideoLabel st = "vout"%string)
  /\ ((n <= 1)%nat -> lastVideoLabel st = "v0"%string /\ filterParts st = []).
Proof.
  intros n st. subst n st. unfold xfadeLoop.
  destruct (chain_prefix transitionDuration durations (List.length durations - 1) (le_n _))
    as (L & Lab & Txt). cbv zeta in L, Lab, Txt.
  split; [exact L|]. split; [exact Txt|]. split; [exact Lab|]. split.
  - intros H. rewrite Lab. unfold labelAfter.
    destruct (Nat.eqb_spec (List.length durations - 1) 0) as [E|_]; [lia|].
    now rewrite Nat.eqb_refl.
  - intros H. replace (List.length durations - 1)%nat with 0%nat by lia.
    split; reflexivity.
Qed.

End MergeChainFacts.

(* ------------------------------------------------------------------ *)
(** ** What a composition job writes to object storage *)

Module UploadFacts.
Import Job.

Section WithEnv.
Variables (env : Env) (drawtextFilter jobId : string) (data : Compose.VideoComposeJobData).

#[local] Abbreviation key := (jobId ++ ".mp4")%string.
#[local] Abbreviation outputFile := (jobDirOf env jobId ++ "/output.mp4")%string.

(** The [try] block writes at most one object, and only once the engine
    has run. *)
Lemma composeBody_uploads (w : World) :
  exists out w',
    composeBody env drawtextFilter jobId data w = (out, w')
    /\ ((uploaded w' = uploaded w
         /\ (storageModeS3 env = true ->
             forall r, out = inl r ->
                       False))
        \/ (uploaded w' = key :: uploaded w
            /\ storageModeS3 env = true
            /\ (exists url, uploadToS3 env outputFile key = inl url)
            /\ (exists backgroundPath,
                  getCachedBackgroundVideo env
                    (JS.orStr (Compose.backgroundId data) "default")
                    (Compose.backgroundUrl data) = inl backgroundPath
                  /\ ffmpegThrows env
                       (ffmpegArgs drawtextFilter (jobDirOf env jobId) backgroundPath data)
                     = None)
            /\ (forall message, out = inr message -> rmThrows env = Some message))
        \/ (uploaded w' = uploaded w /\ storageModeS3 env = false)).
Proof.
  unfold composeBody.
  unfold mkdir, writeFile, execFfmpeg, upload, rm, bind, orThrow, ofResult, ret, throw.
  destruct (mkdirThrows env) as [m|]; cbn -[downloadAll downloadsOf ffmpegArgs List.remove].
  { eexists _, _. split; [reflexivity|]. left. split; [reflexivity | discriminate]. }
  destruct (writeFileThrows env) as [m|]; cbn -[downloadAll downloadsOf ffmpegArgs List.remove].
  { eexists _, _. split; [reflexivity|]. left. split; [reflexivity | discriminate]. }
  destruct (getCachedBackgroundVideo env _ _) as [bg|m] eqn:Ebg;
    cbn -[downloadAll downloadsOf ffmpegArgs List.remove].
  2:{ eexists _, _. split; [reflexivity|]. left. split; [reflexivity | discriminate]. }
  match goal with
  | |- context [downloadAll env ?l ?w0] =>
      destruct (JobFacts.downloadAll_cases env l w0)
        as [[Ed All] | (m & u & pth & Ed & Hin & D)];
      rewrite Ed; cbn -[downloadAll downloadsOf ffmpegArgs List.remove]
  end.
  2:{ eexists _, _. split; [reflexivity|]. left. split; [reflexivity | discriminate]. }
  destruct (ffmpegThrows env _) as [m|] eqn:Eff;
    cbn -[downloadAll downloadsOf ffmpegArgs List.remove].
  { eexists _, _. split; [reflexivity|]. left. split; [reflexivity | discriminate]. }
  destruct (storageModeS3 env) eqn:Es3; cbn -[downloadAll downloadsOf ffmpegArgs List.remove].
  - destruct (uploadToS3 env _ _) as [url|m] eqn:Eup;
      cbn -[downloadAll downloadsOf ffmpegArgs List.remove].
    2:{ eexists _, _. split; [reflexivity|]. left. split; [reflexivity | discriminate]. }
    destruct (rmThrows env) as [m|]; cbn -[downloadAll downloadsOf ffmpegArgs List.remove];
      eexists _, _; (split; [reflexivity|]); right; left;
      (split; [reflexivity|]); (split; [reflexivity|]);
      (split; [now exists url|]);
      (split; [exists bg; split; [reflexivity | exact Eff]|]).
    + intros message [= <-]. reflexivity.
    + discriminate.
  - eexists _, _. split; [reflexivity|]. right. right. split; reflexivity.
Qed.

End WithEnv.

(** X23.  What a composition job writes to object storage.  A job writes
    at most one object, under the key [<job id>.mp4]; with local storage
    it writes none.  It writes the object only after the background was
    fetched and the engine ran without error on the job's arguments, so a
    job whose engine run fails leaves the storage as it was.  A job that
    reports success with object storage has written its object.  A job can
    report failure although its object was written: that happens only
    when the removal of the workspace throws after the upload, and the
    reported error is then the one of the removal. *)
Theorem compose_upload_trace (env : Env) (drawtextFilter jobId : string)
        (data : Compose.VideoComposeJobData) (w : World) :
  exists r w',
    processVideoCompose env drawtextFilter jobId data w = (inl r, w')
    /\ (uploaded w' = uploaded w \/ uploaded w' = (jobId ++ ".mp4")%string :: uploaded w)
    /\ (storageModeS3 env = false -> uploaded w' = uploaded w)
    /\ (uploaded w' <> uploaded w ->
        (exists url, uploadToS3 env (jobDirOf env jobId ++ "/output.mp4")%string
                                (jobId ++ ".mp4")%string = inl url)
        /\ exists backgroundPath,
             getCachedBackgroundVideo env (JS.orStr (Compose.backgroundId data) "default")
                                      (Compose.backgroundUrl data) = inl backgroundPath
             /\ ffmpegThrows env
                  (ffmpegArgs drawtextFilter (jobDirOf env jobId) backgroundPath data)
                = None)
    /\ (success r = true -> storageModeS3 env = true ->
        uploaded w' = (jobId ++ ".mp4")%string :: uploaded w)
    /\ (success r = false -> uploaded w' <> uploaded w ->
        exists message,
          rmThrows env = Some message
          /\ error r = Some ("Failed to compose video: " ++ message)%string).
Proof.
  unfold processVideoCompose, tryCatch.
  destruct (composeBody_uploads env drawtextFilter jobId data w)
    as (out & w1 & E & Cases). rewrite E.
  assert (Handler : forall message,
             exists w',
               (ignoreErrors (rm env (jobDirOf env jobId)) ;;
                ret {| success := false; outputPath := None; outputUrl := None;
                       error := Some ("Failed to compose video: " ++ message)%string |}) w1
               = (inl {| success := false; outputPath := None; outputUrl := None;
                         error := Some ("Failed to compose video: " ++ message)%string |}, w')
               /\ uploaded w' = uploaded w1).
  { intros message. unfold bind, ignoreErrors, tryCatch, rm, bind, orThrow, ret, throw.
    destruct (rmThrows env); cbn -[List.remove]; eexists; split; reflexivity. }
  destruct out as [r | message].
  - exists r, w1. split; [reflexivity|].
    destruct Cases as [(U & No) | [(U & S3 & Up & Bg & _) | (U & S3)]].
    + split; [now left|]. split; [intros _; exact U|].
      split; [intros N; now elim N|].
      split; [intros _ S3; elim (No S3 r eq_refl)|].
      intros _ N. now elim N.
    + split; [now right|]. split; [rewrite S3; discriminate|].
      split; [intros _; split; [exact Up | exact Bg]|].
      split; [intros _ _; exact U|].
      intros F _.
      pose proof (JobFacts.composeBody_cases env drawtextFilter jobId data w) as C.
      destruct C as [(r' & w' & E' & _ & S & _) | (m & w' & E' & _)];
        rewrite E in E'; [|discriminate E'].
      injection E' as <- <-. rewrite S in F. discriminate F.
    + split; [now left|]. split; [intros _; exact U|].
      split; [intros N; now elim N|].
      split; [intros _ T; rewrite S3 in T; discriminate T|].
      intros _ N. now elim N.
  - destruct (Handler message) as (w' & -> & U'). eexists _, w'.
    split; [reflexivity|]. cbn [success error]. rewrite U'.
    destruct Cases as [(U & _) | [(U & S3 & Up & Bg & Rm) | (U & S3)]].
    + split; [now left|]. split; [intros _; exact U|].
      split; [intros N; now elim N|].
      split; [discriminate|]. intros _ N. now elim N.
    + split; [now right|]. split; [rewrite S3; discriminate|].
      split; [intros _; split; [exact Up | exact Bg]|].
      split; [discriminate|].
      intros _ _. exists message. split; [now apply Rm | reflexivity].
    + split; [now left|]. split; [intros _; exact U|].
      split; [intros N; now elim N|].
      split; [discriminate|]. intros _ N. now elim N.
Qed.

End UploadFacts.
